(** * EgoMirror: the realtime session core of [src/App.tsx]

    A shallow embedding of the stateful part of the [App] component:
    the React state ([sessionState], [messages], [error]), the refs
    ([sourcesRef], [nextStartTimeRef], [streamRef], [activeSessionRef],
    [currentInputRef], [currentOutputRef], the two audio contexts), and the
    handlers that mutate them ([stopSession], [startSession], the
    [onopen] / [onmessage] / [onerror] / [onclose] callbacks, the capture
    callback [onaudioprocess], and the click handlers of the JSX).

    The browser runs every handler to completion on one thread; a handler
    that reaches an [await] is split at that point, and its continuation is
    a separate event of the model.  A [World] is the component's state plus
    the part of the environment the handlers read (device time, wall clock,
    pending promises) and a chronological log of the calls they make on
    external objects. *)

From Stdlib Require Import ZArith Lia Ascii String SpecFloat.
From stdpp Require Import base option list gmap strings sorting.

Local Open Scope Z_scope.

(** ** Data model ([src/types.ts]) *)

(** [type SessionState = 'disconnected' | 'connecting' | 'connected' | 'error'];
    the last constructor is spelled [error_state] because [error] is the name
    of the React state slot below. *)
Inductive SessionState := disconnected | connecting | connected | error_state.

Inductive Role := user | model.

(** [interface Message].  [id] is the value of [crypto.randomUUID()], modelled
    as the index of the draw in an idealised stream of pairwise distinct
    UUIDs; [timestamp] is [Date.now()] in milliseconds. *)
Record Message := {
  id : nat;
  role : Role;
  text : string;
  timestamp : Z
}.

#[global] Instance SessionState_eq_dec : EqDecision SessionState.
Proof. solve_decision. Defined.

#[global] Instance Role_eq_dec : EqDecision Role.
Proof. solve_decision. Defined.

(** The fields of [message.serverContent] that [onmessage] reads.  An absent
    [serverContent] is the record with every field absent.  [inlineData] is
    [modelTurn.parts[0].inlineData.data], the base64 text of an audio chunk. *)
Record LiveServerMessage := {
  outputTranscription : option string;
  inputTranscription : option string;
  turnComplete : bool;
  inlineData : option string;
  interrupted : bool
}.

(** An [AudioBuffer] as returned by [decodeAudioData (..., ctx, 24000, 1)]:
    only its length in sample frames matters here.  Times are counted in
    frames of the 24 kHz output context, so that [buffer.duration] and
    [ctx.currentTime] are the integers below (the source holds the same
    quantities divided by 24000, as JS numbers). *)
Record AudioBuffer := { frames : N }.

Definition duration (b : AudioBuffer) : Z := Z.of_N (frames b).

(** Calls made on objects outside the component, in the order made. *)
Inductive Effect :=
| Connect (k : nat)                         (* ai.live.connect -> session k *)
| SessionClose (k : nat)                    (* session.close() *)
| SendMedia (k : nat) (pcmBlob : string)    (* session.sendRealtimeInput({media}) *)
| SendText (k : nat) (t : string)           (* session.sendRealtimeInput({text}) *)
| TrackStop (st : nat)                      (* every track.stop() of stream st *)
| SourceStart (src : nat) (when : Z) (dur : Z)  (* source.start(when) *)
| SourceStop (src : nat)                    (* source.stop() *)
| ConsoleError.

(** Callbacks registered with [sessionPromise.then] while the promise is
    still pending (lines 117 and 125); the assignment of line 180 is always
    the first one and is run by the resolution itself. *)
Inductive Then :=
| ThenSendText (t : string)
| ThenSendMedia (pcmBlob : string).

(** One call of [ai.live.connect]: the [initialText] its callbacks close
    over, whether [onopen] has run (the capture processor exists), whether
    the promise has resolved, and the callbacks waiting for that. *)
Record SessionPromise := {
  initialText : option string;
  opened : bool;
  settled : bool;
  thens : list Then
}.

(** A [startSession] call suspended at its awaits (lines 78-81). *)
Record StartTask := { startText : option string; startDone : bool }.

(** An [onmessage] call suspended at [await decodeAudioData] (line 155); the
    continuation still has to read [message.serverContent?.interrupted]. *)
Record DecodeTask := { decodeInterrupted : bool; decodeDone : bool }.

Record World := MkWorld {
  (* React state *)
  sessionState : SessionState;
  messages : list Message;
  error : option string;
  (* refs *)
  inputAudioCtxRef : bool;           (* .current is non-null *)
  outputAudioCtxRef : bool;
  sourcesRef : gset nat;
  nextStartTimeRef : Z;
  streamRef : option nat;
  activeSessionRef : option nat;
  currentInputRef : string;
  currentOutputRef : string;
  (* environment *)
  currentTime : Z;                   (* outputAudioCtxRef.current.currentTime *)
  dateNow : Z;                       (* Date.now() *)
  uuids : nat;                       (* UUIDs drawn so far *)
  sessionPromises : list SessionPromise;
  startTasks : list StartTask;
  decodeTasks : list DecodeTask;
  sourcesCreated : nat;              (* ctx.createBufferSource() calls *)
  streamsGranted : nat;              (* getUserMedia resolutions *)
  effects : list Effect
}.

(** Field updates. *)
Definition set_sessionState (v : SessionState) (w : World) : World :=
  let 'MkWorld _ b c d e f g h i j k l m n o p q r s t := w in
  MkWorld v b c d e f g h i j k l m n o p q r s t.
Definition set_messages (v : list Message) (w : World) : World :=
  let 'MkWorld a _ c d e f g h i j k l m n o p q r s t := w in
  MkWorld a v c d e f g h i j k l m n o p q r s t.
Definition set_error (v : option string) (w : World) : World :=
  let 'MkWorld a b _ d e f g h i j k l m n o p q r s t := w in
  MkWorld a b v d e f g h i j k l m n o p q r s t.
Definition set_inputAudioCtxRef (v : bool) (w : World) : World :=
  let 'MkWorld a b c _ e f g h i j k l m n o p q r s t := w in
  MkWorld a b c v e f g h i j k l m n o p q r s t.
Definition set_outputAudioCtxRef (v : bool) (w : World) : World :=
  let 'MkWorld a b c d _ f g h i j k l m n o p q r s t := w in
  MkWorld a b c d v f g h i j k l m n o p q r s t.
Definition set_sourcesRef (v : gset nat) (w : World) : World :=
  let 'MkWorld a b c d e _ g h i j k l m n o p q r s t := w in
  MkWorld a b c d e v g h i j k l m n o p q r s t.
Definition set_nextStartTimeRef (v : Z) (w : World) : World :=
  let 'MkWorld a b c d e f _ h i j k l m n o p q r s t := w in
  MkWorld a b c d e f v h i j k l m n o p q r s t.
Definition set_streamRef (v : option nat) (w : World) : World :=
  let 'MkWorld a b c d e f g _ i j k l m n o p q r s t := w in
  MkWorld a b c d e f g v i j k l m n o p q r s t.
Definition set_activeSessionRef (v : option nat) (w : World) : World :=
  let 'MkWorld a b c d e f g h _ j k l m n o p q r s t := w in
  MkWorld a b c d e f g h v j k l m n o p q r s t.
Definition set_currentInputRef (v : string) (w : World) : World :=
  let 'MkWorld a b c d e f g h i _ k l m n o p q r s t := w in
  MkWorld a b c d e f g h i v k l m n o p q r s t.
Definition set_currentOutputRef (v : string) (w : World) : World :=
  let 'MkWorld a b c d e f g h i j _ l m n o p q r s t := w in
  MkWorld a b c d e f g h i j v l m n o p q r s t.
Definition set_currentTime (v : Z) (w : World) : World :=
  let 'MkWorld a b c d e f g h i j k _ m n o p q r s t := w in
  MkWorld a b c d e f g h i j k v m n o p q r s t.
Definition set_dateNow (v : Z) (w : World) : World :=
  let 'MkWorld a b c d e f g h i j k l _ n o p q r s t := w in
  MkWorld a b c d e f g h i j k l v n o p q r s t.
Definition set_uuids (v : nat) (w : World) : World :=
  let 'MkWorld a b c d e f g h i j k l m _ o p q r s t := w in
  MkWorld a b c d e f g h i j k l m v o p q r s t.
Definition set_sessionPromises (v : list SessionPromise) (w : World) : World :=
  let 'MkWorld a b c d e f g h i j k l m n _ p q r s t := w in
  MkWorld a b c d e f g h i j k l m n v p q r s t.
Definition set_startTasks (v : list StartTask) (w : World) : World :=
  let 'MkWorld a b c d e f g h i j k l m n o _ q r s t := w in
  MkWorld a b c d e f g h i j k l m n o v q r s t.
Definition set_decodeTasks (v : list DecodeTask) (w : World) : World :=
  let 'MkWorld a b c d e f g h i j k l m n o p _ r s t := w in
  MkWorld a b c d e f g h i j k l m n o p v r s t.
Definition set_sourcesCreated (v : nat) (w : World) : World :=
  let 'MkWorld a b c d e f g h i j k l m n o p q _ s t := w in
  MkWorld a b c d e f g h i j k l m n o p q v s t.
Definition set_streamsGranted (v : nat) (w : World) : World :=
  let 'MkWorld a b c d e f g h i j k l m n o p q r _ t := w in
  MkWorld a b c d e f g h i j k l m n o p q r v t.
Definition set_effects (v : list Effect) (w : World) : World :=
  let 'MkWorld a b c d e f g h i j k l m n o p q r s _ := w in
  MkWorld a b c d e f g h i j k l m n o p q r s v.

Definition emit (e : Effect) (w : World) : World :=
  set_effects (effects w ++ [e]) w.

(** The component as first rendered (lines 23-48), at device time and wall
    clock [0]. *)
Definition initial : World := {|
  sessionState := disconnected;
  messages := [];
  error := None;
  inputAudioCtxRef := false;
  outputAudioCtxRef := false;
  sourcesRef := ∅;
  nextStartTimeRef := 0;
  streamRef := None;
  activeSessionRef := None;
  currentInputRef := "";
  currentOutputRef := "";
  currentTime := 0;
  dateNow := 0;
  uuids := 0;
  sessionPromises := [];
  startTasks := [];
  decodeTasks := [];
  sourcesCreated := 0;
  streamsGranted := 0;
  effects := []
|}.

(** ** JavaScript primitives the handlers use *)

(** Truthiness of a string: every string but the empty one. *)
Definition truthy (s : string) : bool :=
  match s with EmptyString => false | String _ _ => true end.

(** ECMAScript WhiteSpace and LineTerminator code units below 256: TAB, LF,
    VT, FF, CR, SPACE and NO-BREAK SPACE.  A [string] holds one code unit per
    character; code units above 255 are outside the model. *)
Definition isWhiteSpace (c : ascii) : bool :=
  let n := nat_of_ascii c in
  ((9 <=? n)%nat && (n <=? 13)%nat) || (n =? 32)%nat || (n =? 160)%nat.

Fixpoint trimStart (s : string) : string :=
  match s with
  | EmptyString => EmptyString
  | String c r => if isWhiteSpace c then trimStart r else s
  end.

Fixpoint trimEnd (s : string) : string :=
  match s with
  | EmptyString => EmptyString
  | String c r =>
      match trimEnd r with
      | EmptyString => if isWhiteSpace c then EmptyString else String c EmptyString
      | r' => String c r'
      end
  end.

(** [String.prototype.trim]. *)
Definition trim (s : string) : string := trimEnd (trimStart s).

Arguments trim : simpl never.

(** [a || b] on a possibly undefined string. *)
Definition or_else (a : option string) (b : string) : string :=
  match a with
  | Some s => if truthy s then s else b
  | None => b
  end.

(** The two user-visible messages (lines 173 and 183). *)
Definition LOST_FOCUS : string := "The mirror lost its focus. Let's try again.".
Definition NO_SANCTUARY : string := "Could not reach the sanctuary.".

Definition STARTER_PROMPTS : list string := [
  "I'm feeling a bit drained today...";
  "It's hard for me to connect with others.";
  "I just need someone to listen.";
  "Is it okay to be quiet?";
  "I feel lonely around people."
].

(** ** Handlers *)

(** The order in which the JS [Set] behind [sourcesRef] iterates: insertion
    order.  A source is numbered by [ctx.createBufferSource()] (line 156)
    and added once, right after (line 162), so that insertion order is the
    ascending order of the numbers. *)
Definition insertionOrder (s : gset nat) : list nat :=
  merge_sort Nat.le (elements s).

Arguments insertionOrder : simpl never.

(** [sourcesRef.current.forEach(s => { try { s.stop(); } catch {} });
     sourcesRef.current.clear(); nextStartTimeRef.current = 0;]
    (lines 59-63 and 166-168). *)
Definition flushSources (w : World) : World :=
  let w := set_effects (effects w ++ map SourceStop (insertionOrder (sourcesRef w))) w in
  let w := set_sourcesRef ∅ w in
  set_nextStartTimeRef 0 w.

(** [stopSession] (lines 50-65). *)
Definition stopSession (w : World) : World :=
  let w := match activeSessionRef w with
           | Some k => set_activeSessionRef None (emit (SessionClose k) w)
           | None => w
           end in
  let w := match streamRef w with
           | Some st => set_streamRef None (emit (TrackStop st) w)
           | None => w
           end in
  let w := flushSources w in
  set_sessionState disconnected w.

(** [startSession], from its first line to the first [await] (lines 68-78).
    The rest of the body runs in [getUserMedia_resolved], or the [catch]
    block runs in [startSession_catch]. *)
Definition startSession (text : option string) (w : World) : World :=
  let w := set_sessionState connecting w in
  let w := set_error None w in
  let w := set_inputAudioCtxRef true w in
  let w := set_outputAudioCtxRef true w in
  set_startTasks (startTasks w ++ [{| startText := text; startDone := false |}]) w.

Definition finishStart (task : nat) (w : World) : World :=
  set_startTasks (alter (fun t => {| startText := startText t; startDone := true |})
                        task (startTasks w)) w.

(** Lines 81-180 once [getUserMedia] has resolved: keep the stream, call
    [ai.live.connect], register the assignment of line 180. *)
Definition getUserMedia_resolved (task : nat) (w : World) : World :=
  match startTasks w !! task with
  | Some t =>
      if startDone t then w else
      let w := finishStart task w in
      let st := streamsGranted w in
      let w := set_streamsGranted (S st) w in
      let w := set_streamRef (Some st) w in
      let k := length (sessionPromises w) in
      let w := emit (Connect k) w in
      set_sessionPromises
        (sessionPromises w ++
         [{| initialText := startText t; opened := false;
             settled := false; thens := [] |}]) w
  | None => w
  end.

(** The [catch] block (lines 182-185), with [err.message]. *)
Definition startSession_catch (task : nat) (message : option string)
    (w : World) : World :=
  match startTasks w !! task with
  | Some t =>
      if startDone t then w else
      let w := finishStart task w in
      let w := set_error (Some (or_else message NO_SANCTUARY)) w in
      set_sessionState disconnected w
  | None => w
  end.

(** The bodies of the two [sessionPromise.then] callbacks, for session [k]:
    line 125 sends unconditionally, line 118 only while
    [activeSessionRef.current] is set (the resolved [session] object itself
    is always truthy). *)
Definition runThen (k : nat) (t : Then) (w : World) : World :=
  match t with
  | ThenSendText txt => emit (SendText k txt) w
  | ThenSendMedia pcmBlob =>
      match activeSessionRef w with
      | Some _ => emit (SendMedia k pcmBlob) w
      | None => w
      end
  end.

(** [sessionPromise.then(cb)]: run now when the promise has resolved,
    otherwise wait for the resolution. *)
Definition sessionPromise_then (k : nat) (t : Then) (w : World) : World :=
  match sessionPromises w !! k with
  | Some p =>
      if settled p then runThen k t w
      else set_sessionPromises
             (<[k := {| initialText := initialText p; opened := opened p;
                        settled := false; thens := thens p ++ [t] |}]>
                (sessionPromises w)) w
  | None => w
  end.

(** Resolution of [sessionPromise] for session [k]: line 180 first, then the
    callbacks registered meanwhile, in registration order. *)
Definition sessionPromise_resolved (k : nat) (w : World) : World :=
  match sessionPromises w !! k with
  | Some p =>
      if settled p then w else
      let w := set_sessionPromises
                 (<[k := {| initialText := initialText p; opened := opened p;
                            settled := true; thens := [] |}]>
                    (sessionPromises w)) w in
      let w := set_activeSessionRef (Some k) w in
      foldl (fun w t => runThen k t w) w (thens p)
  | None => w
  end.

(** [onopen] of session [k] (lines 108-127). *)
Definition onopen (k : nat) (w : World) : World :=
  match sessionPromises w !! k with
  | Some p =>
      if opened p then w else
      let w := set_sessionState connected w in
      let w := set_sessionPromises
                 (<[k := {| initialText := initialText p; opened := true;
                            settled := settled p; thens := thens p |}]>
                    (sessionPromises w)) w in
      match initialText p with
      | Some txt => if truthy txt then sessionPromise_then k (ThenSendText txt) w else w
      | None => w
      end
  | None => w
  end.

(** [processor.onaudioprocess] of session [k] (lines 114-120), with the
    result of [createPcmBlob]. *)
Definition onaudioprocess (k : nat) (pcmBlob : string) (w : World) : World :=
  match sessionPromises w !! k with
  | Some p => if opened p then sessionPromise_then k (ThenSendMedia pcmBlob) w else w
  | None => w
  end.

(** Lines 130-134. *)
Definition handleTranscription (m : LiveServerMessage) (w : World) : World :=
  match outputTranscription m with
  | Some t => set_currentOutputRef (currentOutputRef w +:+ t) w
  | None =>
      match inputTranscription m with
      | Some t => set_currentInputRef (currentInputRef w +:+ t) w
      | None => w
      end
  end.

(** The array appended by the updater of lines 140-144. *)
Definition newTurns (w : World) (uText mText : string) : list Message :=
  let us := if truthy uText
            then [{| id := uuids w; role := user; text := uText;
                     timestamp := dateNow w |}]
            else [] in
  let ms := if truthy mText
            then [{| id := (uuids w + length us)%nat; role := model; text := mText;
                     timestamp := dateNow w |}]
            else [] in
  us ++ ms.

(** Lines 136-148. *)
Definition handleTurnComplete (m : LiveServerMessage) (w : World) : World :=
  if turnComplete m then
    let uText := trim (currentInputRef w) in
    let mText := trim (currentOutputRef w) in
    let w := if truthy uText || truthy mText then
               let ts := newTurns w uText mText in
               set_uuids (uuids w + length ts)%nat
                 (set_messages (messages w ++ ts) w)
             else w in
    let w := set_currentInputRef "" w in
    set_currentOutputRef "" w
  else w.

(** Lines 165-169. *)
Definition handleInterrupted (flag : bool) (w : World) : World :=
  if flag then flushSources w else w.

(** [base64Audio && outputAudioCtxRef.current] (line 152). *)
Definition hasAudio (m : LiveServerMessage) (w : World) : bool :=
  match inlineData m with
  | Some d => truthy d && outputAudioCtxRef w
  | None => false
  end.

(** [onmessage] (lines 128-170) up to its [await]: with an audio chunk the
    handler stops after line 154 and leaves a [DecodeTask]; without one it
    runs to its end. *)
Definition onmessage (m : LiveServerMessage) (w : World) : World :=
  let w := handleTranscription m w in
  let w := handleTurnComplete m w in
  if hasAudio m w then
    let w := set_nextStartTimeRef (Z.max (nextStartTimeRef w) (currentTime w)) w in
    set_decodeTasks
      (decodeTasks w ++
       [{| decodeInterrupted := interrupted m; decodeDone := false |}]) w
  else handleInterrupted (interrupted m) w.

Definition finishDecode (task : nat) (w : World) : World :=
  set_decodeTasks
    (alter (fun t => {| decodeInterrupted := decodeInterrupted t; decodeDone := true |})
           task (decodeTasks w)) w.

(** The continuation of [onmessage] after [decodeAudioData] has returned
    [buffer] (lines 156-169). *)
Definition decode_resolved (task : nat) (buffer : AudioBuffer) (w : World) : World :=
  match decodeTasks w !! task with
  | Some t =>
      if decodeDone t then w else
      let w := finishDecode task w in
      let source := sourcesCreated w in
      let w := set_sourcesCreated (S source) w in
      let w := emit (SourceStart source (nextStartTimeRef w) (duration buffer)) w in
      let w := set_nextStartTimeRef (nextStartTimeRef w + duration buffer) w in
      let w := set_sourcesRef ({[source]} ∪ sourcesRef w) w in
      handleInterrupted (decodeInterrupted t) w
  | None => w
  end.

(** [decodeAudioData] threw: the [async] handler ends there. *)
Definition decode_rejected (task : nat) (w : World) : World :=
  match decodeTasks w !! task with
  | Some t => if decodeDone t then w else finishDecode task w
  | None => w
  end.

(** [source.onended] (line 159). *)
Definition onended (source : nat) (w : World) : World :=
  set_sourcesRef (sourcesRef w ∖ {[source]}) w.

(** [onerror] (lines 171-175) and [onclose] (line 176). *)
Definition onerror (w : World) : World :=
  let w := emit ConsoleError w in
  let w := set_error (Some LOST_FOCUS) w in
  stopSession w.

Definition onclose (w : World) : World := stopSession w.

(** The microphone button (lines 256-258): [stopSession] while connected,
    disabled while connecting, [startSession()] otherwise. *)
Definition clickMic (w : World) : World :=
  match sessionState w with
  | connected => stopSession w
  | connecting => w
  | _ => startSession None w
  end.

(** A starter prompt button (lines 240-253), rendered only while
    disconnected. *)
Definition clickPrompt (i : nat) (w : World) : World :=
  match sessionState w, STARTER_PROMPTS !! i with
  | disconnected, Some prompt => startSession (Some prompt) w
  | _, _ => w
  end.

(** "PURGE LOGS" (line 366). *)
Definition purgeLogs (w : World) : World := set_messages [] w.

(** ** Events and runs *)

Inductive Event :=
| ClickMic
| ClickPrompt (i : nat)
| PurgeLogs
| Unmount                                   (* effect cleanup, line 193 *)
| GetUserMediaResolved (task : nat)
| StartRejected (task : nat) (message : option string)
| OnOpen (k : nat)
| SessionResolved (k : nat)
| OnAudioProcess (k : nat) (pcmBlob : string)
| OnMessage (m : LiveServerMessage)
| DecodeResolved (task : nat) (buffer : AudioBuffer)
| DecodeRejected (task : nat)
| OnEnded (source : nat)
| OnError
| OnClose
| DeviceTick (df : N)                       (* ctx.currentTime advances *)
| WallTick (ms : N).                        (* Date.now() advances *)

Definition step (w : World) (e : Event) : World :=
  match e with
  | ClickMic => clickMic w
  | ClickPrompt i => clickPrompt i w
  | PurgeLogs => purgeLogs w
  | Unmount => stopSession w
  | GetUserMediaResolved task => getUserMedia_resolved task w
  | StartRejected task message => startSession_catch task message w
  | OnOpen k => onopen k w
  | SessionResolved k => sessionPromise_resolved k w
  | OnAudioProcess k pcmBlob => onaudioprocess k pcmBlob w
  | OnMessage m => onmessage m w
  | DecodeResolved task buffer => decode_resolved task buffer w
  | DecodeRejected task => decode_rejected task w
  | OnEnded source => onended source w
  | OnError => onerror w
  | OnClose => onclose w
  | DeviceTick df => set_currentTime (currentTime w + Z.of_N df) w
  | WallTick ms => set_dateNow (dateNow w + Z.of_N ms) w
  end.

Definition run (w : World) (es : list Event) : World := foldl step w es.

(** ** Observations on the log of external calls *)

(** Sessions on which [close()] was called, in call order. *)
Definition closes (l : list Effect) : list nat :=
  omap (fun e => match e with SessionClose k => Some k | _ => None end) l.

(** Audio frames handed to [sendRealtimeInput], with the session used. *)
Definition sentMedia (l : list Effect) : list (nat * string) :=
  omap (fun e => match e with SendMedia k b => Some (k, b) | _ => None end) l.

(** Sessions opened by [ai.live.connect]. *)
Definition connects (l : list Effect) : list nat :=
  omap (fun e => match e with Connect k => Some k | _ => None end) l.

(** The playback schedule: for every [source.start(when)], in call order,
    [when] and the duration of the buffer started. *)
Definition schedule (w : World) : list (Z * Z) :=
  omap (fun e => match e with SourceStart _ t d => Some (t, d) | _ => None end)
       (effects w).

(** ** Which events are scheduler operations *)

(** The [onmessage] call of decode task [task] is still suspended. *)
Definition pending (task : nat) (w : World) : bool :=
  match decodeTasks w !! task with
  | Some t => negb (decodeDone t)
  | None => false
  end.

(** The event runs the flush of lines 59-63 / 166-168 (interruption or
    session end) in world [w]. *)
Definition isFlush (w : World) (e : Event) : bool :=
  match e with
  | OnMessage m => negb (hasAudio m w) && interrupted m
  | DecodeResolved task _ =>
      match decodeTasks w !! task with
      | Some t => negb (decodeDone t) && decodeInterrupted t
      | None => false
      end
  | ClickMic => bool_decide (sessionState w = connected)
  | Unmount | OnError | OnClose => true
  | _ => false
  end.

(** The event submits an audio chunk (line 154) in world [w]. *)
Definition isArrival (w : World) (e : Event) : bool :=
  match e with
  | OnMessage m => hasAudio m w
  | _ => false
  end.

(** The event schedules a decoded chunk (lines 156-162) in world [w]. *)
Definition isScheduling (w : World) (e : Event) : bool :=
  match e with
  | DecodeResolved task _ => pending task w
  | _ => false
  end.

Definition isPlayback (w : World) (e : Event) : bool :=
  isArrival w e || isScheduling w e.

(** The event ends the suspension of decode task [task]. *)
Definition settles (task : nat) (e : Event) : bool :=
  match e with
  | DecodeResolved t _ | DecodeRejected t => bool_decide (t = task)
  | _ => false
  end.


(** While decode task [task] is suspended: no event of the run is a flush
    and none settles the task. *)
Fixpoint calm (task : nat) (w : World) (es : list Event) : bool :=
  match es with
  | [] => true
  | e :: es' => negb (isFlush w e) && negb (settles task e) && calm task (step w e) es'
  end.


Definition sumDurations (l : list (Z * Z)) : Z := foldr (fun x acc => snd x + acc) 0 l.





(** What one event adds to the schedule. *)
Definition scheduled (w : World) (e : Event) : list (Z * Z) :=
  match e with
  | DecodeResolved task buffer =>
      if pending task w then [(nextStartTimeRef w, duration buffer)] else []
  | _ => []
  end.

(** The clock after one event. *)
Definition clockAfter (w : World) (e : Event) : Z :=
  if isFlush w e then 0
  else match e with
       | OnMessage m =>
           if hasAudio m w then Z.max (nextStartTimeRef w) (currentTime w)
           else nextStartTimeRef w
       | DecodeResolved task buffer =>
           if pending task w then nextStartTimeRef w + duration buffer
           else nextStartTimeRef w
       | _ => nextStartTimeRef w
       end.

(** A message that carries nothing but an audio chunk. *)
Definition audioChunk (data : string) : LiveServerMessage := {|
  outputTranscription := None; inputTranscription := None;
  turnComplete := false; inlineData := Some data; interrupted := false
|}.

(** A message that carries nothing but the [interrupted] marker. *)
Definition interruptedOnly : LiveServerMessage := {|
  outputTranscription := None; inputTranscription := None;
  turnComplete := false; inlineData := None; interrupted := true
|}.

(** A message that carries an audio chunk and the [interrupted] marker. *)
Definition interruptedChunk (data : string) : LiveServerMessage := {|
  outputTranscription := None; inputTranscription := None;
  turnComplete := false; inlineData := Some data; interrupted := true
|}.

(** No event of the list is a message carrying [turnComplete]. *)
Definition noTurnComplete (es : list Event) : bool :=
  forallb (fun e => match e with OnMessage m => negb (turnComplete m) | _ => true end) es.

(** No event of the list resolves a [sessionPromise] (line 180 does not run). *)
Definition noResolution (es : list Event) : bool :=
  forallb (fun e => match e with SessionResolved _ => false | _ => true end) es.

(** A message that carries nothing but the [turnComplete] marker. *)
Definition turnCompleteOnly : LiveServerMessage := {|
  outputTranscription := None; inputTranscription := None;
  turnComplete := true; inlineData := None; interrupted := false
|}.


(** A message that carries nothing but a delta of the user's transcript. *)
Definition inputDelta (t : string) : LiveServerMessage := {|
  outputTranscription := None; inputTranscription := Some t;
  turnComplete := false; inlineData := None; interrupted := false
|}.

(** A message that carries nothing but a delta of the model's transcript. *)
Definition outputDelta (t : string) : LiveServerMessage := {|
  outputTranscription := Some t; inputTranscription := None;
  turnComplete := false; inlineData := None; interrupted := false
|}.

(** ** Sample runs *)

(** A session brought up from the first render: click, microphone granted,
    [onopen], promise resolved. *)
Definition connectedWorld : World :=
  run initial [ClickMic; GetUserMediaResolved 0; OnOpen 0; SessionResolved 0].

(** A decoded chunk of 100 ms (2400 frames at 24 kHz). *)
Definition chunk100ms : AudioBuffer := {| frames := 2400 |}.




(** A chunk is playing when the session is restarted from the page. *)
Definition playingWorld : World :=
  run connectedWorld
      [DeviceTick 24000; OnMessage (audioChunk "AAAA"); DecodeResolved 0 chunk100ms].

Definition restart : list Event :=
  [ClickMic; GetUserMediaResolved 1; OnOpen 1; SessionResolved 1;
   OnMessage (inputDelta " there")].

(** After a stop the old capture processor keeps firing and a new session
    is being brought up, its promise still pending. *)
Definition captureAfterStop : list Event :=
  [OnAudioProcess 0 "AAAA"; ClickMic; OnAudioProcess 0 "AAAA";
   GetUserMediaResolved 1; OnOpen 1; OnAudioProcess 1 "BBBB";
   OnAudioProcess 0 "AAAA"].

(** The [sessionPromise] of session [k] has resolved. *)
Definition isSettled (k : nat) (w : World) : Prop :=
  exists p, sessionPromises w !! k = Some p /\ settled p = true.

(** [close()] has been called at most once on every session, only on
    sessions whose promise has resolved, and never on the session still
    held in [activeSessionRef]. *)
Definition closeOnce (w : World) : Prop :=
  NoDup (closes (effects w)) /\
  (forall k, k ∈ closes (effects w) -> isSettled k w) /\
  (forall k, activeSessionRef w = Some k -> (k ∉ closes (effects w)) /\ isSettled k w).

(** Ten chunks of 100 ms, each decoded as it arrives, while the model's
    words "Hi there" are transcribed; then the turn ends and the user stops. *)
Definition tenChunks : list Event :=
  flat_map (fun task => [OnMessage (audioChunk "AAAA"); DecodeResolved task chunk100ms])
           (seq 0 10).

Definition endToEnd : list Event :=
  [ClickMic; GetUserMediaResolved 0; OnOpen 0; SessionResolved 0; DeviceTick 24000]
  ++ tenChunks
  ++ [OnMessage (outputDelta "Hi "); OnMessage (outputDelta "there");
      OnMessage turnCompleteOnly; ClickMic].

(** The user has stopped the first session from the page and started a
    second one, which is up: its promise has resolved. *)
Definition restartedWorld : World :=
  run connectedWorld
      [ClickMic; ClickMic; GetUserMediaResolved 1; OnOpen 1; SessionResolved 1].

(** A chunk of 100 ms is playing and the device time is 50 ms into it. *)
Definition bargeInWorld : World := run playingWorld [DeviceTick 1200].

(** Sessions that are open: [onopen] has run, the promise has resolved, and
    [close()] has not been called on them. *)
Definition liveSessions (w : World) : list nat :=
  filter (fun k => k ∉ closes (effects w))
         (omap (fun kp => if opened kp.2 && settled kp.2 then Some kp.1 else None)
               (imap pair (sessionPromises w))).

(** The [sessionState] the page shows at each click on the microphone
    button or on a starter prompt along a run. *)
Fixpoint clickStates (w : World) (es : list Event) : list SessionState :=
  match es with
  | [] => []
  | e :: es' =>
      match e with
      | ClickMic | ClickPrompt _ => [sessionState w]
      | _ => []
      end ++ clickStates (step w e) es'
  end.

(** The user starts a session, stops it, and starts again; the [onclose]
    of the first session arrives while the second is being connected, and
    the user, shown [disconnected], starts once more.  Both connections
    then come up. *)
Definition lateClose : list Event :=
  [ClickMic; GetUserMediaResolved 0; OnOpen 0; SessionResolved 0;
   ClickMic;
   ClickMic; GetUserMediaResolved 1;
   OnClose;
   ClickMic; GetUserMediaResolved 2;
   OnOpen 1; SessionResolved 1; OnOpen 2; SessionResolved 2].

(** ** Further observations *)

(** Texts handed to [sendRealtimeInput] (line 125), with the session used. *)
Definition sentTexts (l : list Effect) : list (nat * string) :=
  omap (fun e => match e with SendText k t => Some (k, t) | _ => None end) l.

(** Sources on which [start] was called, and those on which [stop] was
    called, in call order. *)
Definition started (l : list Effect) : list nat :=
  omap (fun e => match e with SourceStart src _ _ => Some src | _ => None end) l.

Definition stopped (l : list Effect) : list nat :=
  omap (fun e => match e with SourceStop src => Some src | _ => None end) l.

(** The frames among queued [then] callbacks, in registration order. *)
Definition queuedMedia (ts : list Then) : list string :=
  omap (fun t => match t with ThenSendMedia b => Some b | ThenSendText _ => None end) ts.

Fixpoint lastChar (s : string) : option ascii :=
  match s with
  | EmptyString => None
  | String c EmptyString => Some c
  | String _ r => lastChar r
  end.

Definition firstChar (s : string) : option ascii :=
  match s with
  | EmptyString => None
  | String c _ => Some c
  end.

(** A text that is not empty and neither begins nor ends with white space. *)
Definition cleanText (s : string) : Prop :=
  s <> "" /\
  (forall c, firstChar s = Some c -> isWhiteSpace c = false) /\
  (forall c, lastChar s = Some c -> isWhiteSpace c = false).


(** Every source in the playing set has been created, the sources started
    so far are exactly the created ones, in creation order, and only
    created sources were ever stopped. *)
Definition sourcesTracked (w : World) : Prop :=
  (forall src, src ∈ sourcesRef w -> (src < sourcesCreated w)%nat) /\
  started (effects w) = seq 0 (sourcesCreated w) /\
  (forall src, src ∈ stopped (effects w) -> (src < sourcesCreated w)%nat).

(** Streams whose tracks were stopped, in call order. *)
Definition trackStops (l : list Effect) : list nat :=
  omap (fun e => match e with TrackStop st => Some st | _ => None end) l.

(** Every stream whose tracks were stopped had been granted, none was
    stopped twice, and the stream held in [streamRef] is a granted one whose
    tracks have not been stopped. *)
Definition tracksTracked (w : World) : Prop :=
  NoDup (trackStops (effects w)) /\
  (forall st, st ∈ trackStops (effects w) -> (st < streamsGranted w)%nat) /\
  (forall st, streamRef w = Some st ->
              (st < streamsGranted w)%nat /\ (st ∉ trackStops (effects w))).

(** Device time and clock are not negative, and no chunk was started at a
    negative time. *)
Definition timesValid (w : World) : Prop :=
  0 <= currentTime w /\
  0 <= nextStartTimeRef w /\
  Forall (fun x => 0 <= fst x /\ 0 <= snd x) (schedule w).

(** A message that carries one transcript delta of the given speaker. *)
Definition deltaMessage (d : Role * string) : LiveServerMessage :=
  match fst d with
  | user => inputDelta (snd d)
  | model => outputDelta (snd d)
  end.

(** The deltas of one speaker, concatenated in arrival order. *)
Fixpoint textsOf (r : Role) (ds : list (Role * string)) : string :=
  match ds with
  | [] => ""
  | d :: ds' => if decide (fst d = r) then snd d +:+ textsOf r ds' else textsOf r ds'
  end.

(** ** Persona and panels (lines 8-12, 24-36, 188-191, 208-211, 296-326) *)

Inductive VoiceName := Zephyr | Puck | Charon | Kore | Fenrir.

(** [interface PersonaConfig] ([src/types.ts]). *)
Record PersonaConfig := {
  name : string;
  instruction : string;
  voiceName : VoiceName
}.

Definition DEFAULT_PERSONA : PersonaConfig := {|
  name := "Ego";
  instruction := "You are EgoMirror, a gentle and empathetic companion for those who feel lonely, socially anxious, or overwhelmed. Your goal is to provide a safe, non-judgmental sanctuary. You understand that socializing can be draining. When the user speaks, mirror their feelings with deep compassion. Encourage self-kindness. Remind them that it's okay to be quiet, to be an introvert, and to take up space in their own inner world. Do not judge. Use soft, supportive language. Keep responses concise so the conversation feels like a natural flow of thought. If they are silent, don't rush them.";
  voiceName := Kore
|}.

(** The part of the page outside the session: the [persona] state, the two
    panel flags, and the value stored under ['egomirror_persona_v2'] in
    [localStorage] ([None] when the key is absent). *)
Record Page := {
  persona : PersonaConfig;
  showSettings : bool;
  showHistory : bool;
  storage : option string
}.

Inductive PageEvent :=
| OpenHistory                               (* line 208 *)
| OpenSettings                              (* line 211 *)
| CloseSettings                             (* line 296 *)
| EditInstruction (v : string)              (* line 303 *)
| ChooseVoice (v : VoiceName)               (* line 314 *)
| SaveSettings                              (* line 324 *)
| CloseHistory.                             (* lines 341 and 367 *)

(** No event of the list is a click on "Save & Protect". *)
Definition noSave (es : list PageEvent) : bool :=
  forallb (fun e => match e with SaveSettings => false | _ => true end) es.

Section Persistence.

(** [JSON.parse] and [JSON.stringify] at the type of the persona:
    [JSON_parse] is [None] where [JSON.parse] throws.  Stored texts that
    parse to a value of another shape are outside the model. *)
Variable JSON_parse : string -> option PersonaConfig.
Variable JSON_stringify : PersonaConfig -> string.

(** The initialiser of the [persona] state (lines 29-36). *)
Definition loadPersona (saved : option string) : PersonaConfig :=
  match saved with
  | Some text =>
      if truthy text then
        match JSON_parse text with
        | Some p => p
        | None => DEFAULT_PERSONA
        end
      else DEFAULT_PERSONA
  | None => DEFAULT_PERSONA
  end.

(** The page as first rendered over a given [localStorage]. *)
Definition mount (saved : option string) : Page := {|
  persona := loadPersona saved;
  showSettings := false;
  showHistory := false;
  storage := saved
|}.

(** [handleSaveSettings] (lines 188-191). *)
Definition handleSaveSettings (pg : Page) : Page := {|
  persona := persona pg;
  showSettings := false;
  showHistory := showHistory pg;
  storage := Some (JSON_stringify (persona pg))
|}.

Definition pageStep (pg : Page) (e : PageEvent) : Page :=
  match e with
  | OpenHistory =>
      {| persona := persona pg; showSettings := showSettings pg;
         showHistory := true; storage := storage pg |}
  | OpenSettings =>
      {| persona := persona pg; showSettings := true;
         showHistory := showHistory pg; storage := storage pg |}
  | CloseSettings =>
      {| persona := persona pg; showSettings := false;
         showHistory := showHistory pg; storage := storage pg |}
  | EditInstruction v =>
      {| persona := {| name := name (persona pg); instruction := v;
                       voiceName := voiceName (persona pg) |};
         showSettings := showSettings pg;
         showHistory := showHistory pg; storage := storage pg |}
  | ChooseVoice v =>
      {| persona := {| name := name (persona pg);
                       instruction := instruction (persona pg);
                       voiceName := v |};
         showSettings := showSettings pg;
         showHistory := showHistory pg; storage := storage pg |}
  | SaveSettings => handleSaveSettings pg
  | CloseHistory =>
      {| persona := persona pg; showSettings := showSettings pg;
         showHistory := false; storage := storage pg |}
  end.

Definition pageRun (pg : Page) (es : list PageEvent) : Page := foldl pageStep pg es.

End Persistence.

(** ** The visualizer ([src/components/Visualizer.tsx], lines 49-52) *)

Definition rays : Z := 72.

(** JS numbers are IEEE 754 binary64 values: precision 53, exponents below
    1024; [/] and [*] round to nearest, ties to even ([SFdiv], [SFmul]). *)
Definition prec : Z := 53.
Definition emax : Z := 1024.

(** The double that holds an integer (exact below 2^53). *)
Definition number (z : Z) : spec_float := binary_normalize prec emax z 0 false.

(** [Math.floor] of a finite double, as an integer; [None] stands for the
    results that are no integer ([NaN] and the infinities). *)
Definition Math_floor (x : spec_float) : option Z :=
  match x with
  | S754_zero _ => Some 0
  | S754_finite s m e =>
      let n := if s then Z.neg m else Z.pos m in
      Some (if 0 <=? e then n * 2 ^ e else n / 2 ^ (- e))
  | _ => None
  end.

(** [Math.floor((i / rays) * (bufferLength / 2))] (line 51). *)
Definition rayIndex (i bufferLength : Z) : option Z :=
  Math_floor (SFmul prec emax (SFdiv prec emax (number i) (number rays))
                              (SFdiv prec emax (number bufferLength) (number 2))).

(** The values [analyser.frequencyBinCount] can take are the halves of the
    legal [fftSize]s, the powers of two from 2^4 to 2^14; the table pairs
    each exponent with each ray. *)
Definition rayTable : list (Z * Z) :=
  flat_map (fun e => map (pair e) (map Z.of_nat (seq 0 72))) (map Z.of_nat (seq 4 11)).

(** ** Proof support *)

Ltac world w :=
  destruct w as [wSt wMs wEr wIn wOut wSrc wClk wStr wAct wCin wCout
                 wNow wDate wUu wSess wStarts wDec wNsrc wNstr wEff].

Lemma append_assoc (a b c : string) : (a +:+ b) +:+ c = a +:+ (b +:+ c).
Proof.
  induction a as [|x a IH]; [reflexivity|].
  change (String x ((a +:+ b) +:+ c) = String x (a +:+ (b +:+ c))).
  now f_equal.
Qed.

Lemma append_nil_r (a : string) : a +:+ "" = a.
Proof.
  induction a as [|x a IH]; [reflexivity|].
  change (String x (a +:+ "") = String x a).
  now f_equal.
Qed.

Lemma hasAudio_transcript m w :
  hasAudio m (handleTurnComplete m (handleTranscription m w)) = hasAudio m w.
Proof.
  world w. destruct m as [[o|] [i|] [] d it]; cbn;
    repeat (case_match; cbn); reflexivity.
Qed.

Lemma insertionOrder_empty : insertionOrder ∅ = [].
Proof. unfold insertionOrder. now rewrite elements_empty. Qed.

Lemma elem_of_insertionOrder (s : gset nat) (x : nat) : x ∈ insertionOrder s <-> x ∈ s.
Proof.
  unfold insertionOrder. rewrite merge_sort_Permutation. apply elem_of_elements.
Qed.

Lemma stopSession_twice w : stopSession (stopSession w) = stopSession w.
Proof.
  world w. destruct wAct, wStr; cbn;
    rewrite ?insertionOrder_empty; cbn; rewrite ?app_nil_r; reflexivity.
Qed.

Lemma closes_app l1 l2 : closes (l1 ++ l2) = closes l1 ++ closes l2.
Proof. apply omap_app. Qed.

Lemma closes_stops (s : list nat) : closes (map SourceStop s) = [].
Proof. induction s; cbn; auto. Qed.

Lemma sentMedia_app l1 l2 : sentMedia (l1 ++ l2) = sentMedia l1 ++ sentMedia l2.
Proof. apply omap_app. Qed.

Lemma sentMedia_stops (s : list nat) : sentMedia (map SourceStop s) = [].
Proof. induction s; cbn; auto. Qed.



Lemma stopSession_closes w :
  closes (effects (stopSession w))
  = closes (effects w) ++ option_list (activeSessionRef w).
Proof.
  world w. destruct wAct, wStr; cbn;
    rewrite ?closes_app, ?closes_stops; cbn; rewrite ?app_nil_r; reflexivity.
Qed.

Lemma stopSession_fields w :
  sessionState (stopSession w) = disconnected /\
  activeSessionRef (stopSession w) = None /\
  streamRef (stopSession w) = None /\
  sourcesRef (stopSession w) = ∅ /\
  nextStartTimeRef (stopSession w) = 0.
Proof. world w. destruct wAct, wStr; cbn; auto. Qed.

(** The callbacks of [sessionPromise.then] touch nothing but the log. *)
Lemma runThen_log k t w : exists l, runThen k t w = set_effects (effects w ++ l) w.
Proof.
  world w. destruct t as [txt|b]; cbn.
  - eexists; reflexivity.
  - destruct wAct; cbn; [eexists; reflexivity|].
    exists []. now rewrite app_nil_r.
Qed.

Lemma runThens_log k ts w :
  exists l, foldl (fun w t => runThen k t w) w ts = set_effects (effects w ++ l) w.
Proof.
  revert w. induction ts as [|t ts IH]; intros w; cbn.
  - exists []. world w. cbn. now rewrite app_nil_r.
  - destruct (runThen_log k t w) as [l1 ->].
    destruct (IH (set_effects (effects w ++ l1) w)) as [l2 ->].
    exists (l1 ++ l2). world w. cbn. now rewrite app_assoc.
Qed.

(** The transcript part of [onmessage] writes the accumulators, the log of
    turns and the UUID counter, and nothing else. *)
Lemma transcript_shape m w :
  exists ms uu ci co,
    handleTurnComplete m (handleTranscription m w)
    = set_messages ms (set_uuids uu (set_currentInputRef ci (set_currentOutputRef co w))).
Proof.
  world w. destruct m as [[o|] [i|] [] d it];
    unfold handleTurnComplete, handleTranscription; cbn;
    repeat (case_match; cbn); repeat eexists.
Qed.

(** Case analysis of one step: break the event open, summarise the
    transcript part of a message and the log written by queued [then]
    callbacks, break the world open and unfold the handler. *)
Ltac step_unfold w :=
  cbn [step isFlush isPlayback isArrival isScheduling] in *;
  try (match goal with
       | |- context [sessionPromise_resolved ?ek w] =>
           unfold sessionPromise_resolved;
           let pr := fresh "pr" in
           let Hlookup := fresh "Hlookup" in
           let Hsettled := fresh "Hsettled" in
           destruct (sessionPromises w !! ek) as [pr|] eqn:Hlookup; [|];
           try (destruct (settled pr) eqn:Hsettled; [|];
                try (match goal with
                     | |- context [foldl ?f ?w0 (thens pr)] =>
                         let l := fresh "l" in let Hl := fresh "Hl" in
                         destruct (runThens_log ek (thens pr) w0) as [l Hl];
                         rewrite Hl; clear Hl
                     end))
       end);
  try (match goal with
       | |- context [onmessage ?em w] =>
           unfold onmessage; rewrite hasAudio_transcript;
           let ms := fresh "ms" in let uu := fresh "uu" in
           let ci := fresh "ci" in let co := fresh "co" in
           let Hshape := fresh "Hshape" in
           let Haudio := fresh "Haudio" in
           let Hinterrupted := fresh "Hinterrupted" in
           destruct (transcript_shape em w) as (ms & uu & ci & co & Hshape);
           rewrite Hshape; clear Hshape;
           destruct (hasAudio em w) eqn:Haudio;
           destruct (interrupted em) eqn:Hinterrupted
       end);
  world w;
  unfold clickMic, clickPrompt, purgeLogs, onerror, onclose, stopSession,
    getUserMedia_resolved, startSession_catch, startSession, finishStart,
    onopen, onaudioprocess, sessionPromise_then, runThen,
    decode_resolved, decode_rejected, finishDecode,
    handleInterrupted, flushSources, onended, emit in *;
  cbn in *.

Ltac step_cases w e :=
  destruct e as [ | ?ei | | | ?etask | ?etask ?emsg | ?ek | ?ek | ?ek ?eblob | ?em
                | ?etask ?ebuf | ?etask | ?esrc | | | ?edf | ?ems ];
  step_unfold w.

Lemma run_cons w e es : run w (e :: es) = run (step w e) es.
Proof. reflexivity. Qed.

Lemma step_accumulators w e :
  (if e is OnMessage _ then True else
     currentInputRef (step w e) = currentInputRef w /\
     currentOutputRef (step w e) = currentOutputRef w).
Proof.
  step_cases w e; auto; repeat (case_match; cbn; auto).
Qed.

Lemma step_accumulators_grow w e :
  (if e is OnMessage m then turnComplete m = false else True) ->
  exists i o,
    currentInputRef (step w e) = currentInputRef w +:+ i /\
    currentOutputRef (step w e) = currentOutputRef w +:+ o.
Proof.
  intros He.
  destruct e as [ | | | | | | | | |m| | | | | | | ];
    try (match goal with
         | |- context [step ?w0 ?e0] =>
             lazymatch e0 with
             | OnMessage _ => fail
             | _ => destruct (step_accumulators w0 e0) as [Hi Ho]; rewrite Hi, Ho;
                    exists "", ""; now rewrite !append_nil_r
             end
         end).
  world w. destruct m as [[o|] [i|] tc d it]; cbn in He; subst tc;
    cbn [step];
    unfold onmessage, handleTranscription, handleTurnComplete,
      handleInterrupted, flushSources, hasAudio; cbn;
    repeat (case_match; cbn);
    first [ exists "", o; now rewrite ?append_nil_r
          | exists i, ""; now rewrite ?append_nil_r
          | exists "", ""; now rewrite ?append_nil_r ].
Qed.

Lemma run_accumulators_grow es : forall w,
  noTurnComplete es = true ->
  exists i o,
    currentInputRef (run w es) = currentInputRef w +:+ i /\
    currentOutputRef (run w es) = currentOutputRef w +:+ o.
Proof.
  induction es as [|e es IH]; intros w H.
  - exists "", "". cbn. now rewrite !append_nil_r.
  - rewrite run_cons. cbn in H. apply andb_prop in H as [He Hes].
    destruct (IH (step w e) Hes) as (i2 & o2 & -> & ->).
    destruct (step_accumulators_grow w e) as (i1 & o1 & -> & ->).
    { destruct e; auto. now apply negb_true_iff. }
    exists (i1 +:+ i2), (o1 +:+ o2). now rewrite !append_assoc.
Qed.

Lemma turnCompleteOnly_messages w :
  messages (onmessage turnCompleteOnly w)
  = messages w ++ newTurns w (trim (currentInputRef w)) (trim (currentOutputRef w)).
Proof.
  world w. unfold onmessage, handleTranscription, handleTurnComplete, newTurns,
    handleInterrupted, hasAudio; cbn.
  destruct (truthy (trim wCin)), (truthy (trim wCout)); cbn;
    rewrite ?app_nil_r; reflexivity.
Qed.

Lemma closeOnce_frame w w' :
  closes (effects w') = closes (effects w) ->
  activeSessionRef w' = activeSessionRef w ->
  (forall k, isSettled k w -> isSettled k w') ->
  closeOnce w -> closeOnce w'.
Proof.
  intros Hc Ha Hs (Hnd & Hcl & Hact). unfold closeOnce. rewrite Hc, Ha.
  repeat split; auto.
  - apply Hact; assumption.
  - apply Hs, Hact; assumption.
Qed.

Lemma stopSession_closeOnce w : closeOnce w -> closeOnce (stopSession w).
Proof.
  intros (Hnd & Hcl & Hact).
  assert (Hsess : sessionPromises (stopSession w) = sessionPromises w)
    by (world w; destruct wAct, wStr; reflexivity).
  destruct (stopSession_fields w) as (_ & Hnone & _).
  unfold closeOnce, isSettled in *. rewrite stopSession_closes, Hsess, Hnone.
  destruct (activeSessionRef w) as [k|]; cbn; rewrite ?app_nil_r.
  - destruct (Hact k eq_refl) as [Hk Hset].
    repeat split; try discriminate.
    + apply NoDup_app. repeat split; auto.
      * intros x Hx Hx'. apply list_elem_of_singleton in Hx'. now subst.
      * apply NoDup_singleton.
    + intros x [Hx | Hx]%elem_of_app; auto.
      apply list_elem_of_singleton in Hx. now subst.
  - repeat split; auto; discriminate.
Qed.

Lemma runThens_frame k ts : forall w,
  closes (effects (foldl (fun w t => runThen k t w) w ts)) = closes (effects w) /\
  activeSessionRef (foldl (fun w t => runThen k t w) w ts) = activeSessionRef w /\
  sessionPromises (foldl (fun w t => runThen k t w) w ts) = sessionPromises w.
Proof.
  induction ts as [|t ts IH]; intros w; cbn; auto.
  destruct (IH (runThen k t w)) as (-> & -> & ->).
  world w. destruct t; unfold runThen, emit; cbn; [|destruct wAct; cbn];
    rewrite ?closes_app; cbn; rewrite ?app_nil_r; auto.
Qed.

Lemma isSettled_insert k k' p p' w :
  sessionPromises w !! k' = Some p ->
  (settled p = true -> settled p' = true) ->
  isSettled k w ->
  isSettled k (set_sessionPromises (<[k' := p']> (sessionPromises w)) w).
Proof.
  intros Hk' Himp (q & Hq & Hset). unfold isSettled. world w. cbn in *.
  destruct (decide (k' = k)) as [->|Hne].
  - exists p'. rewrite list_lookup_insert_eq by (eapply lookup_lt_Some; eauto).
    split; auto. apply Himp. congruence.
  - exists q. now rewrite list_lookup_insert_ne.
Qed.

Lemma sessionPromise_resolved_closeOnce k w :
  closeOnce w -> closeOnce (sessionPromise_resolved k w).
Proof.
  intros Hw. unfold sessionPromise_resolved.
  destruct (sessionPromises w !! k) as [p|] eqn:Hk; [|exact Hw].
  destruct (settled p) eqn:Hp; [exact Hw|].
  match goal with |- closeOnce (foldl ?f ?w0 (thens p)) =>
    destruct (runThens_frame k (thens p) w0) as (Hc & Ha & Hs)
  end.
  destruct Hw as (Hnd & Hcl & Hact).
  unfold closeOnce, isSettled. rewrite Hc, Ha, Hs. clear Hc Ha Hs.
  unfold isSettled in *. world w. cbn in *.
  assert (Hlen : (k < length wSess)%nat) by (eapply lookup_lt_Some; eauto).
  assert (Hnew : forall x, (exists q, wSess !! x = Some q /\ settled q = true) ->
                 exists q, <[k := {| initialText := initialText p; opened := opened p;
                                     settled := true; thens := [] |}]> wSess !! x = Some q
                           /\ settled q = true).
  { intros x (q & Hq & Hset). destruct (decide (k = x)) as [->|Hne].
    - eexists. rewrite list_lookup_insert_eq by assumption. split; reflexivity.
    - exists q. now rewrite list_lookup_insert_ne. }
  repeat split; auto.
  - intros Hin. destruct (Hcl _ Hin) as (q & Hq & Hset). simplify_eq. congruence.
  - simplify_eq. eexists. rewrite list_lookup_insert_eq by assumption.
    split; reflexivity.
Qed.

Lemma sessionPromise_then_closeOnce k t w :
  closeOnce w -> closeOnce (sessionPromise_then k t w).
Proof.
  intros Hw. unfold sessionPromise_then.
  destruct (sessionPromises w !! k) as [q|] eqn:Hq; [|exact Hw].
  destruct (settled q) eqn:Hsq.
  - eapply closeOnce_frame; [| | |exact Hw].
    + world w. unfold runThen, emit. destruct t; [|destruct wAct]; cbn;
        rewrite ?closes_app; cbn; rewrite ?app_nil_r; auto.
    + world w. unfold runThen, emit. destruct t; [|destruct wAct]; reflexivity.
    + intros x Hx. world w. unfold runThen, emit.
      destruct t; [|destruct wAct]; exact Hx.
  - eapply closeOnce_frame; [| | |exact Hw]; [world w; reflexivity..|].
    intros x Hx. apply (isSettled_insert x k q _ w Hq); [|exact Hx].
    intros H'. congruence.
Qed.

Lemma step_closeOnce w e : closeOnce w -> closeOnce (step w e).
Proof.
  intros Hw.
  destruct e as [ | i | | | task | task msg | k | k | k b | m | task buf
                | task | src | | | df | ms ]; cbn [step].
  - unfold clickMic. destruct (sessionState w);
      [ | exact Hw | now apply stopSession_closeOnce | ];
      (eapply closeOnce_frame; [| | |exact Hw]; [world w; reflexivity..|];
       intros k Hk; world w; exact Hk).
  - unfold clickPrompt. repeat case_match; try exact Hw.
    eapply closeOnce_frame; [| | |exact Hw]; [world w; reflexivity..|].
    intros k Hk; world w; exact Hk.
  - eapply closeOnce_frame; [| | |exact Hw]; [world w; reflexivity..|].
    intros k Hk; world w; exact Hk.
  - now apply stopSession_closeOnce.
  - unfold getUserMedia_resolved. repeat case_match; try exact Hw.
    eapply closeOnce_frame; [| | |exact Hw].
    + world w. unfold emit. cbn. rewrite closes_app. cbn. now rewrite app_nil_r.
    + world w. reflexivity.
    + intros k (q & Hq & Hset). exists q. world w. cbn in *.
      split; auto. rewrite lookup_app_l; auto. eapply lookup_lt_Some; eauto.
  - unfold startSession_catch. repeat case_match; try exact Hw.
    eapply closeOnce_frame; [| | |exact Hw]; [world w; reflexivity..|].
    intros k Hk; world w; exact Hk.
  - unfold onopen. destruct (sessionPromises w !! k) as [p|] eqn:Hk; [|exact Hw].
    destruct (opened p); [exact Hw|]. cbn zeta.
    match goal with
    | |- closeOnce (match _ with
                    | Some txt => if _ then sessionPromise_then _ _ ?v else _
                    | None => _
                    end) => assert (H1 : closeOnce v)
    end.
    { eapply closeOnce_frame; [| | |exact Hw]; [world w; reflexivity..|].
      intros x (q & Hq & Hset). unfold isSettled. world w. cbn in *.
      destruct (decide (k = x)) as [->|Hne].
      - eexists. rewrite list_lookup_insert_eq by (eapply lookup_lt_Some; eauto).
        split; [reflexivity|]. cbn. congruence.
      - exists q. now rewrite list_lookup_insert_ne. }
    repeat case_match; try exact H1.
    now apply sessionPromise_then_closeOnce.
  - now apply sessionPromise_resolved_closeOnce.
  - unfold onaudioprocess. repeat case_match; try exact Hw.
    now apply sessionPromise_then_closeOnce.
  - unfold onmessage. rewrite hasAudio_transcript.
    destruct (transcript_shape m w) as (ms & uu & ci & co & ->).
    eapply closeOnce_frame; [| | |exact Hw].
    + world w. unfold handleInterrupted, flushSources. cbn.
      repeat (case_match; cbn); auto.
      rewrite closes_app, closes_stops. now rewrite app_nil_r.
    + world w. unfold handleInterrupted, flushSources. cbn.
      repeat (case_match; cbn); auto.
    + intros x Hx. world w. unfold handleInterrupted, flushSources, isSettled in *.
      cbn in *. repeat (case_match; cbn); auto.
  - unfold decode_resolved. repeat case_match; try exact Hw.
    eapply closeOnce_frame; [| | |exact Hw].
    + world w. unfold handleInterrupted, flushSources, finishDecode, emit. cbn.
      repeat (case_match; cbn); rewrite ?closes_app, ?closes_stops; cbn;
        rewrite ?app_nil_r; auto.
    + world w. unfold handleInterrupted, flushSources. cbn.
      repeat (case_match; cbn); auto.
    + intros x Hx. world w. unfold handleInterrupted, flushSources, isSettled in *.
      cbn in *. repeat (case_match; cbn); auto.
  - unfold decode_rejected. repeat case_match; try exact Hw.
    eapply closeOnce_frame; [| | |exact Hw]; [world w; reflexivity..|].
    intros x Hx; world w; exact Hx.
  - eapply closeOnce_frame; [| | |exact Hw]; [world w; reflexivity..|].
    intros x Hx; world w; exact Hx.
  - unfold onerror. apply stopSession_closeOnce.
    eapply closeOnce_frame; [| | |exact Hw].
    + world w. unfold emit. cbn. rewrite closes_app. cbn. now rewrite app_nil_r.
    + world w. reflexivity.
    + intros x Hx; world w; exact Hx.
  - now apply stopSession_closeOnce.
  - eapply closeOnce_frame; [| | |exact Hw]; [world w; reflexivity..|].
    intros x Hx; world w; exact Hx.
  - eapply closeOnce_frame; [| | |exact Hw]; [world w; reflexivity..|].
    intros x Hx; world w; exact Hx.
Qed.

Lemma run_closeOnce es : forall w, closeOnce w -> closeOnce (run w es).
Proof.
  induction es as [|e es IH]; intros w H; [exact H|].
  rewrite run_cons. apply IH, step_closeOnce, H.
Qed.

(** ** The session state machine: stop *)

(** C6.  Calling [stopSession] twice in succession leaves the state
    [disconnected] after each call; the second call changes nothing at all
    (no field, no external call); over both calls [close()] is invoked once
    on the session held in [activeSessionRef] when there is one and never
    otherwise; before any session exists the call is the identity.  Over
    any run from the first render, whatever the events, no session has
    [close()] called on it twice.  The handler is total: the only call that
    can throw, [source.stop()], sits in a [try]/[catch]. *)
Theorem C6_stop_idempotent (w : World) :
  let w1 := stopSession w in
  let w2 := stopSession w1 in
  sessionState w1 = disconnected /\
  sessionState w2 = disconnected /\
  w2 = w1 /\
  closes (effects w2) = closes (effects w) ++ option_list (activeSessionRef w) /\
  (length (closes (effects w2)) <= length (closes (effects w)) + 1)%nat /\
  stopSession initial = initial /\
  (forall es, NoDup (closes (effects (run initial es)))).
Proof.
  cbn zeta. rewrite stopSession_twice, stopSession_closes.
  pose proof (stopSession_fields w) as (Hst & _).
  repeat match goal with |- _ /\ _ => split end; auto.
  - rewrite length_app. destruct (activeSessionRef w); cbn; lia.
  - intros es. apply (run_closeOnce es initial).
    repeat split; cbn; try constructor; try discriminate.
    all: intros k Hk; inversion Hk.
Qed.

(** ** Frame of a full stop *)

(** C10.  [stopSession] writes the session handle, the microphone stream,
    the set of playing sources, the playback clock and the session state,
    and nothing else of the component (its only other trace is the log of
    external calls).  The two transcript accumulators and the committed log
    are unchanged, and no later event touches the accumulators except the
    transcript deltas of later messages, which append to them: the text
    accumulated before the stop is committed by the first [turnComplete]
    that follows, in front of whatever the next session added. *)
Theorem C10_stop_keeps_transcript (w : World) (es : list Event)
    (Hes : noTurnComplete es = true) :
  stopSession w
  = set_sessionState disconnected
      (set_nextStartTimeRef 0
         (set_sourcesRef ∅
            (set_streamRef None
               (set_activeSessionRef None
                  (set_effects (effects (stopSession w)) w))))) /\
  currentInputRef (stopSession w) = currentInputRef w /\
  currentOutputRef (stopSession w) = currentOutputRef w /\
  messages (stopSession w) = messages w /\
  let w' := run (stopSession w) es in
  exists i o,
    currentInputRef w' = currentInputRef w +:+ i /\
    currentOutputRef w' = currentOutputRef w +:+ o /\
    messages (onmessage turnCompleteOnly w')
    = messages w' ++ newTurns w' (trim (currentInputRef w +:+ i))
                                 (trim (currentOutputRef w +:+ o)).
Proof.
  assert (Hin : currentInputRef (stopSession w) = currentInputRef w)
    by (world w; destruct wAct, wStr; reflexivity).
  assert (Hout : currentOutputRef (stopSession w) = currentOutputRef w)
    by (world w; destruct wAct, wStr; reflexivity).
  repeat split; auto.
  - world w; destruct wAct, wStr; reflexivity.
  - world w; destruct wAct, wStr; reflexivity.
  - cbn zeta.
    destruct (run_accumulators_grow es (stopSession w) Hes) as (i & o & Hi & Ho).
    exists i, o. rewrite Hin in Hi. rewrite Hout in Ho.
    repeat split; auto.
    rewrite turnCompleteOnly_messages, Hi, Ho. reflexivity.
Qed.

(** ** The transcript assembler *)







(** C3.  When one message carries both an output and an input transcript
    delta, [onmessage] appends the output delta to the model accumulator and
    leaves the user accumulator as it was: the [else if] of line 132 skips
    the input delta. *)
Theorem C3_input_delta_dropped (w : World) (out inp : string)
    (d : option string) (it : bool) :
  let m := {| outputTranscription := Some out; inputTranscription := Some inp;
              turnComplete := false; inlineData := d; interrupted := it |} in
  currentOutputRef (onmessage m w) = currentOutputRef w +:+ out /\
  currentInputRef (onmessage m w) = currentInputRef w.
Proof.
  world w. unfold onmessage, handleTranscription, handleTurnComplete,
    handleInterrupted, flushSources, hasAudio. cbn.
  repeat (case_match; cbn); auto.
Qed.

(** ** Errors *)


(** ** The playback clock *)

Lemma duration_nonneg (b : AudioBuffer) : 0 <= duration b.
Proof. unfold duration. lia. Qed.

Lemma step_clock w e : nextStartTimeRef (step w e) = clockAfter w e.
Proof.
  unfold clockAfter, pending.
  step_cases w e; try reflexivity.
  all: try (destruct wSt; cbn; reflexivity).
  all: repeat (case_match; cbn in *; simplify_eq; try reflexivity).
Qed.

Lemma starts_of_stops (s : list nat) :
  omap (fun e => match e with SourceStart _ t d => Some (t, d) | _ => None end)
       (map SourceStop s) = [].
Proof. induction s; cbn; auto. Qed.

Lemma runThen_schedule k t w : schedule (runThen k t w) = schedule w.
Proof.
  world w. destruct t; unfold runThen, emit, schedule; cbn.
  - rewrite omap_app. cbn. now rewrite app_nil_r.
  - destruct wAct; cbn; auto. rewrite omap_app. cbn. now rewrite app_nil_r.
Qed.

Lemma runThens_schedule k ts : forall w,
  schedule (foldl (fun w t => runThen k t w) w ts) = schedule w.
Proof.
  induction ts as [|t ts IH]; intros w; cbn; auto.
  now rewrite IH, runThen_schedule.
Qed.

Lemma step_schedule w e : schedule (step w e) = schedule w ++ scheduled w e.
Proof.
  unfold scheduled, pending.
  destruct e as [ | i | | | task | task msg | k | k | k b | m | task buf
                | task | src | | | df | ms ]; cbn [step]; rewrite ?app_nil_r.
  8: { unfold sessionPromise_resolved. repeat case_match; auto.
       rewrite runThens_schedule. world w. reflexivity. }
  9: { unfold onmessage. rewrite hasAudio_transcript.
        destruct (transcript_shape m w) as (ms & uu & ci & co & ->).
        world w. unfold handleInterrupted, flushSources, schedule. cbn.
        repeat (case_match; cbn); auto.
        rewrite omap_app, starts_of_stops. now rewrite app_nil_r. }
  all: world w;
    unfold clickMic, clickPrompt, purgeLogs, onerror, onclose, stopSession,
      getUserMedia_resolved, startSession_catch, startSession, finishStart,
      onopen, onaudioprocess, sessionPromise_then, runThen,
      decode_resolved, decode_rejected, finishDecode,
      handleInterrupted, flushSources, onended, emit, schedule;
    cbn;
    repeat (case_match; cbn in *; simplify_eq);
    rewrite ?omap_app, ?starts_of_stops; cbn; rewrite ?app_nil_r; auto.
Qed.


(** ** Back-to-back scheduling *)






Lemma clockAfter_ge w e : isFlush w e = false -> nextStartTimeRef w <= clockAfter w e.
Proof.
  unfold clockAfter. intros ->. destruct e; try lia.
  - destruct (hasAudio m w); lia.
  - pose proof (duration_nonneg buffer). destruct (pending task w); lia.
Qed.







(** ** Interruption *)

Lemma interruptedOnly_step w : step w (OnMessage interruptedOnly) = flushSources w.
Proof. reflexivity. Qed.

Lemma step_flush_sources w e : isFlush w e = true -> sourcesRef (step w e) = ∅.
Proof.
  intros H. step_cases w e; try discriminate; try reflexivity.
  all: try (destruct wSt; cbn in *; try discriminate; reflexivity).
  all: repeat (case_match; cbn in *; simplify_eq; try reflexivity).
Qed.

Lemma onmessage_arrival (a : LiveServerMessage) (w : World) :
  hasAudio a w = true ->
  pending (length (decodeTasks w)) (step w (OnMessage a)) = true /\
  nextStartTimeRef (step w (OnMessage a)) = Z.max (nextStartTimeRef w) (currentTime w).
Proof.
  intros Ha. split.
  - cbn [step]. unfold onmessage, pending. rewrite hasAudio_transcript, Ha.
    destruct (transcript_shape a w) as (ms & uu & ci & co & ->).
    world w. cbn. now rewrite list_lookup_middle.
  - rewrite step_clock. unfold clockAfter. cbn. now rewrite Ha.
Qed.

Lemma step_pending tk w e :
  pending tk w = true -> settles tk e = false -> pending tk (step w e) = true.
Proof.
  unfold pending. intros Hp Hs.
  step_cases w e; auto.
  all: repeat (case_match; cbn in *; simplify_eq; auto).
  all: try apply bool_decide_eq_false in Hs.
  all: try (rewrite list_lookup_alter_ne in * by congruence).
  all: try (rewrite lookup_app_l in * by (eapply lookup_lt_Some; eauto)).
  all: simplify_eq; auto.
Qed.

Lemma calm_run task mid : forall w,
  calm task w mid = true -> pending task w = true ->
  pending task (run w mid) = true /\
  nextStartTimeRef w <= nextStartTimeRef (run w mid).
Proof.
  induction mid as [|e mid IH]; intros w Hc Hp.
  - cbn. split; [assumption | lia].
  - cbn in Hc. apply andb_prop in Hc as [[Hf Hs]%andb_prop Hc].
    apply negb_true_iff in Hf, Hs.
    rewrite run_cons.
    destruct (IH (step w e) Hc (step_pending _ _ _ Hp Hs)) as [Hp' Hle].
    split; [assumption|].
    rewrite step_clock in Hle. pose proof (clockAfter_ge w e Hf). lia.
Qed.

(** C4.  The flush of lines 166-168 is not what always follows an
    [interrupted] signal.  Take a world in which a source is playing and
    the device time is positive.

    - The signal comes on a message [a] that also carries a chunk, and the
      chunk cannot be decoded: [onmessage] ends at line 155, no
      [source.stop()] is called, the playing set is what it was and the
      clock is positive.
    - The signal comes alone and is processed (set empty, clock 0).  A
      chunk [b] arrives afterwards, at device time [currentTime w], and the
      clock is set to that time; a second signal arrives while [b] is
      decoded and resets the clock; [df] frames later the decoding ends
      and [b] is started with [when = 0], below the device time of its
      arrival and of the call, and stays in the playing set. *)
Theorem C4_interruption_missed (w : World) (a b : LiveServerMessage)
    (buffer : AudioBuffer) (df : N)
    (Ha : hasAudio a w = true) (Hint : interrupted a = true)
    (Hb : hasAudio b w = true) (Hnot : interrupted b = false)
    (Hplaying : sourcesRef w <> ∅)
    (Htime : 0 < currentTime w) :
  let task := length (decodeTasks w) in
  (let w1 := run w [OnMessage a; DecodeRejected task] in
   pending task w1 = false /\
   effects w1 = effects w /\
   sourcesRef w1 = sourcesRef w /\
   sourcesRef w1 <> ∅ /\
   0 < nextStartTimeRef w1) /\
  (let wi := step w (OnMessage interruptedOnly) in
   let w1 := step wi (OnMessage b) in
   let w2 := run w1 [OnMessage interruptedOnly; DeviceTick df] in
   let w3 := step w2 (DecodeResolved task buffer) in
   sourcesRef wi = ∅ /\
   nextStartTimeRef wi = 0 /\
   currentTime w1 = currentTime w /\
   nextStartTimeRef w1 = currentTime w /\
   currentTime w2 = currentTime w + Z.of_N df /\
   schedule w3 = schedule w ++ [(0, duration buffer)] /\
   sourcesRef w3 = {[sourcesCreated w]} /\
   nextStartTimeRef w3 = duration buffer).
Proof.
  cbn zeta. split.
  - unfold run. cbn [foldl step]. unfold onmessage, decode_rejected, pending.
    rewrite hasAudio_transcript, Ha.
    destruct (transcript_shape a w) as (ms & uu & ci & co & ->).
    world w. unfold finishDecode. cbn in *.
    rewrite list_lookup_middle by reflexivity. cbn.
    rewrite list_lookup_alter, list_lookup_middle by reflexivity. cbn.
    case_decide; [|congruence]. cbn.
    repeat match goal with |- _ /\ _ => split end; auto; lia.
  - unfold run. cbn [foldl]. rewrite !interruptedOnly_step.
    cbn [step]. unfold onmessage, decode_resolved.
    rewrite hasAudio_transcript.
    assert (Hb' : hasAudio b (flushSources w) = true) by (world w; exact Hb).
    rewrite Hb'.
    destruct (transcript_shape b (flushSources w)) as (ms & uu & ci & co & ->).
    world w. unfold finishDecode, handleInterrupted, flushSources, schedule, emit.
    cbn in *.
    rewrite list_lookup_middle by reflexivity. cbn. rewrite Hnot. cbn.
    rewrite insertionOrder_empty. cbn.
    rewrite !omap_app. cbn. rewrite app_nil_r.
    repeat match goal with |- _ /\ _ => split end; auto; try lia.
    + now rewrite starts_of_stops, app_nil_r.
    + apply union_empty_r_L.
Qed.

(** ** Capture after a stop *)

Lemma step_no_handle w e :
  activeSessionRef w = None ->
  (if e is SessionResolved _ then False else True) ->
  activeSessionRef (step w e) = None /\
  sentMedia (effects (step w e)) = sentMedia (effects w).
Proof.
  intros Hact He. step_cases w e; try contradiction; subst.
  all: repeat (case_match; cbn in *; simplify_eq);
    rewrite ?sentMedia_app, ?sentMedia_stops; cbn; rewrite ?app_nil_r; auto.
Qed.

Lemma run_no_handle es : forall w,
  activeSessionRef w = None -> noResolution es = true ->
  activeSessionRef (run w es) = None /\
  sentMedia (effects (run w es)) = sentMedia (effects w).
Proof.
  induction es as [|e es IH]; intros w Hact Hes; [auto|].
  cbn in Hes. apply andb_prop in Hes as [He Hes]. rewrite run_cons.
  destruct (step_no_handle w e Hact) as [Hact' Hsent]; [destruct e; auto; discriminate|].
  destruct (IH _ Hact' Hes) as [? ->]. auto.
Qed.

Lemma stopSession_sentMedia w :
  sentMedia (effects (stopSession w)) = sentMedia (effects w).
Proof.
  world w. unfold stopSession, flushSources, emit. destruct wAct, wStr; cbn;
    rewrite ?sentMedia_app, ?sentMedia_stops; cbn; rewrite ?app_nil_r; auto.
Qed.

(** C8.  The test of line 118 reads [activeSessionRef], which is shared by
    all sessions, and not the session the processor was created for.  So
    once a later session has put its handle there, the capture callback of
    an earlier session [k], on which [close()] has been called, is no
    no-op: it hands its frame to [sendRealtimeInput] of session [k]. *)
Theorem C8_frame_sent_after_stop (w : World) (k j : nat) (p : SessionPromise)
    (pcmBlob : string)
    (Hk : sessionPromises w !! k = Some p)
    (Hopened : opened p = true)
    (Hsettled : settled p = true)
    (Hclosed : k ∈ closes (effects w))
    (Hheld : activeSessionRef w = Some j) :
  let w' := step w (OnAudioProcess k pcmBlob) in
  w' <> w /\
  effects w' = effects w ++ [SendMedia k pcmBlob] /\
  sentMedia (effects w') = sentMedia (effects w) ++ [(k, pcmBlob)].
Proof.
  cbn zeta. cbn [step]. unfold onaudioprocess, sessionPromise_then, runThen.
  rewrite Hk, Hopened, Hsettled, Hheld.
  assert (Heff : effects (emit (SendMedia k pcmBlob) w)
                 = effects w ++ [SendMedia k pcmBlob])
    by (world w; reflexivity).
  split; [|split].
  - intros H. rewrite H in Heff. apply (f_equal length) in Heff.
    rewrite length_app in Heff. cbn in Heff. lia.
  - exact Heff.
  - rewrite Heff, sentMedia_app. reflexivity.
Qed.

(** ** The session state machine: start *)

(** C5.  Along [lateClose] the page lets the user start only while it
    shows [disconnected] (the second click, made while [connected], is the
    stop), and yet the run ends with two open sessions.  The [onclose] of
    session 0 runs [stopSession] while session 1 is being connected: the
    state goes back to [disconnected] with nothing to close, the user
    starts session 2, and line 180 later puts the handle of session 1 and
    then that of session 2 into [activeSessionRef] without closing the one
    it replaces.  A stop then closes session 2 only. *)
Theorem C5_two_live_sessions :
  let w := run initial lateClose in
  clickStates initial lateClose = [disconnected; connected; disconnected; disconnected] /\
  map startDone (startTasks w) = [true; true; true] /\
  connects (effects w) = [0; 1; 2]%nat /\
  closes (effects w) = [0%nat] /\
  liveSessions w = [1; 2]%nat /\
  activeSessionRef w = Some 2%nat /\
  closes (effects (stopSession w)) = [0; 2]%nat /\
  liveSessions (stopSession w) = [1%nat].
Proof. vm_compute. repeat split; reflexivity. Qed.

(** ** An end-to-end run *)

(** Start, open, ten chunks of 100 ms, a model turn, stop: the chunks play
    back to back over 24000 frames (one second), one turn is logged, and the
    stop leaves the state [disconnected] with no playing source. *)
Example endToEnd_run :
  let w := run initial endToEnd in
  map fst (schedule w)
  = [24000; 26400; 28800; 31200; 33600; 36000; 38400; 40800; 43200; 45600] /\
  sumDurations (schedule w) = 24000 /\
  messages w = [{| id := 0; role := model; text := "Hi there"; timestamp := 0 |}] /\
  sessionState w = disconnected /\
  sourcesRef w = ∅ /\
  closes (effects w) = [0%nat].
Proof. vm_compute. repeat split; reflexivity. Qed.

(** ** The theorems at concrete runs *)


(** While a chunk plays, at device time 25200: an interrupted message whose
    chunk cannot be decoded leaves source 0 playing and the clock at 26400;
    a chunk that arrives after an interruption and is overtaken by a second
    one is started at 0, at device time 25248. *)
Lemma C4_interruption_missed_witness :
  hasAudio (interruptedChunk "BBBB") bargeInWorld = true /\
  hasAudio (audioChunk "BBBB") bargeInWorld = true /\
  elements (sourcesRef bargeInWorld) = [0%nat] /\
  currentTime bargeInWorld = 25200 /\
  (let w1 := run bargeInWorld [OnMessage (interruptedChunk "BBBB"); DecodeRejected 1] in
   elements (sourcesRef w1) = [0%nat] /\ nextStartTimeRef w1 = 26400) /\
  (let w3 := run bargeInWorld
               [OnMessage interruptedOnly; OnMessage (audioChunk "BBBB");
                OnMessage interruptedOnly; DeviceTick 48; DecodeResolved 1 chunk100ms] in
   schedule w3 = [(24000, 2400); (0, 2400)] /\ currentTime w3 = 25248).
Proof.
  split; [reflexivity|]. split; [reflexivity|]. split; [reflexivity|].
  split; [reflexivity|].
  destruct (C4_interruption_missed bargeInWorld (interruptedChunk "BBBB")
              (audioChunk "BBBB") chunk100ms 48) as [H1 H2];
    [reflexivity | reflexivity | reflexivity | reflexivity
    | intros H; apply (f_equal elements) in H; vm_compute in H; discriminate H
    | reflexivity |].
  cbn zeta in H1, H2. destruct H2 as (_ & _ & _ & _ & _ & Hsch & _).
  split; [split; vm_compute; reflexivity|].
  split; [|vm_compute; reflexivity].
  change (length (decodeTasks bargeInWorld)) with 1%nat in Hsch.
  etransitivity; [exact Hsch|]. vm_compute. reflexivity.
Defined.

(** Session 0 was stopped from the page and session 1 is up: the processor
    of session 0 fires and its frame goes out on session 0. *)
Lemma C8_frame_sent_after_stop_witness :
  sessionPromises restartedWorld !! 0%nat
  = Some {| initialText := None; opened := true; settled := true; thens := [] |} /\
  closes (effects restartedWorld) = [0%nat] /\
  activeSessionRef restartedWorld = Some 1%nat /\
  sentMedia (effects restartedWorld) = [] /\
  sentMedia (effects (step restartedWorld (OnAudioProcess 0 "AAAA"))) = [(0%nat, "AAAA")].
Proof.
  split; [reflexivity|]. split; [reflexivity|]. split; [reflexivity|].
  split; [reflexivity|].
  destruct (C8_frame_sent_after_stop restartedWorld 0 1
              {| initialText := None; opened := true; settled := true; thens := [] |}
              "AAAA") as (_ & _ & H);
    [reflexivity | reflexivity | reflexivity | vm_compute; left | reflexivity |].
  rewrite H. reflexivity.
Defined.

(** "Hi" is accumulated, the session is stopped and restarted, " there"
    arrives: the next [turnComplete] commits "Hi there". *)
Lemma C10_stop_keeps_transcript_witness :
  noTurnComplete restart = true /\
  let w := run connectedWorld [OnMessage (inputDelta "Hi")] in
  currentInputRef (stopSession w) = "Hi" /\
  messages (onmessage turnCompleteOnly (run (stopSession w) restart))
  = [{| id := 0; role := user; text := "Hi there"; timestamp := 0 |}].
Proof.
  split; [reflexivity|]. cbn zeta.
  destruct (C10_stop_keeps_transcript
              (run connectedWorld [OnMessage (inputDelta "Hi")]) restart eq_refl)
    as (_ & Hin & _ & _ & _).
  split; [rewrite Hin|]; vm_compute; reflexivity.
Defined.

(** * Further properties of the handlers *)

(** ** What the log of turns holds *)

Lemma trimStart_first (s : string) : forall c,
  firstChar (trimStart s) = Some c -> isWhiteSpace c = false.
Proof.
  induction s as [|a s IH]; intros c H; [discriminate|].
  cbn [trimStart] in H. destruct (isWhiteSpace a) eqn:Ha; [now apply IH|].
  cbn in H. now simplify_eq.
Qed.

Lemma trimEnd_last (s : string) : forall c,
  lastChar (trimEnd s) = Some c -> isWhiteSpace c = false.
Proof.
  induction s as [|a s IH]; intros c H; [discriminate|].
  cbn [trimEnd] in H. destruct (trimEnd s) as [|b r].
  - destruct (isWhiteSpace a) eqn:Ha; [discriminate|]. cbn in H. now simplify_eq.
  - apply IH. exact H.
Qed.

Lemma trimEnd_first (s : string) (c : ascii) :
  firstChar s = Some c -> isWhiteSpace c = false -> firstChar (trimEnd s) = Some c.
Proof.
  destruct s as [|a s]; intros H Hc; [discriminate|]. cbn in H. simplify_eq.
  cbn [trimEnd]. destruct (trimEnd s); [rewrite Hc|]; reflexivity.
Qed.

Lemma trim_clean (s : string) : truthy (trim s) = true -> cleanText (trim s).
Proof.
  intros Ht. unfold trim in *.
  destruct (trimStart s) as [|a r] eqn:Hs; [discriminate|].
  assert (Ha : isWhiteSpace a = false)
    by (apply (trimStart_first s); now rewrite Hs).
  pose proof (trimEnd_first (String a r) a eq_refl Ha) as Hfirst.
  repeat split.
  - intros Hempty. rewrite Hempty in Ht. discriminate.
  - intros c Hc. congruence.
  - apply trimEnd_last.
Qed.

Lemma handleTurnComplete_clean m w :
  Forall (fun x => cleanText (text x)) (messages w) ->
  Forall (fun x => cleanText (text x)) (messages (handleTurnComplete m w)).
Proof.
  unfold handleTurnComplete, newTurns. world w. cbn. intros H.
  destruct (turnComplete m); cbn; [|exact H].
  destruct (truthy (trim wCin)) eqn:Hu, (truthy (trim wCout)) eqn:Hm; cbn;
    rewrite ?Forall_app; repeat split; auto;
    repeat constructor; cbn; now apply trim_clean.
Qed.

Lemma step_clean w e :
  Forall (fun x => cleanText (text x)) (messages w) ->
  Forall (fun x => cleanText (text x)) (messages (step w e)).
Proof.
  destruct e as [ | | | | | | | | | m | | | | | | | ].
  10: { intros H. cbn [step]. unfold onmessage.
        assert (H1 : Forall (fun x => cleanText (text x))
                            (messages (handleTranscription m w)))
          by (revert H; unfold handleTranscription; world w;
              repeat (case_match; cbn); auto).
        apply (handleTurnComplete_clean m) in H1. revert H1.
        generalize (handleTurnComplete m (handleTranscription m w)). intros v.
        unfold handleInterrupted, flushSources. world v. cbn.
        repeat (case_match; cbn); auto. }
  all: intros H; step_unfold w.
  all: repeat (case_match; cbn in *; simplify_eq); auto.
Qed.

(** X1.  In every world reachable from the first render, every turn of the
    log has a text that is not empty and neither begins nor ends with white
    space. *)
Theorem X1_turns_are_trimmed (es : list Event) :
  Forall (fun x => cleanText (text x)) (messages (run initial es)).
Proof.
  assert (H : forall w, Forall (fun x => cleanText (text x)) (messages w) ->
                        Forall (fun x => cleanText (text x)) (messages (run w es))).
  { induction es as [|e es IH]; intros w Hw; [exact Hw|].
    rewrite run_cons. apply IH, step_clean, Hw. }
  apply H. constructor.
Qed.




(** ** States never reached *)

Lemma step_not_error w e :
  sessionState w <> error_state -> sessionState (step w e) <> error_state.
Proof.
  intros H. step_cases w e.
  all: repeat (case_match; cbn in *; simplify_eq); auto; discriminate.
Qed.

(** X3.  The ['error'] member of [SessionState] is dead: in no world
    reachable from the first render is [sessionState] equal to it, so the
    state is always one of disconnected, connecting and connected. *)
Theorem X3_error_state_unreachable (es : list Event) :
  sessionState (run initial es) <> error_state.
Proof.
  assert (H : forall w, sessionState w <> error_state ->
                        sessionState (run w es) <> error_state).
  { induction es as [|e es IH]; intros w Hw; [exact Hw|].
    rewrite run_cons. apply IH, step_not_error, Hw. }
  apply H. discriminate.
Qed.

(** ** Playback sources *)

Lemma started_app l1 l2 : started (l1 ++ l2) = started l1 ++ started l2.
Proof. apply omap_app. Qed.

Lemma stopped_app l1 l2 : stopped (l1 ++ l2) = stopped l1 ++ stopped l2.
Proof. apply omap_app. Qed.

Lemma started_stops (s : list nat) : started (map SourceStop s) = [].
Proof. induction s; cbn; auto. Qed.

Lemma stopped_stops (s : list nat) : stopped (map SourceStop s) = s.
Proof. induction s as [|x s IH]; [reflexivity|]. cbn. f_equal. exact IH. Qed.

Lemma runThens_sources k ts : forall w,
  started (effects (foldl (fun w t => runThen k t w) w ts)) = started (effects w) /\
  stopped (effects (foldl (fun w t => runThen k t w) w ts)) = stopped (effects w) /\
  sourcesRef (foldl (fun w t => runThen k t w) w ts) = sourcesRef w /\
  sourcesCreated (foldl (fun w t => runThen k t w) w ts) = sourcesCreated w.
Proof.
  induction ts as [|t ts IH]; intros w; cbn; auto.
  destruct (IH (runThen k t w)) as (-> & -> & -> & ->).
  world w. destruct t; unfold runThen, emit; cbn; [|destruct wAct; cbn];
    rewrite ?started_app, ?stopped_app; cbn; rewrite ?app_nil_r; auto.
Qed.

Lemma flushSources_tracked w : sourcesTracked w -> sourcesTracked (flushSources w).
Proof.
  unfold sourcesTracked, flushSources. world w. cbn.
  intros (Hin & Hst & Hsp).
  rewrite started_app, stopped_app, started_stops, stopped_stops, app_nil_r.
  repeat split; auto.
  - intros src Hsrc. apply elem_of_empty in Hsrc. contradiction.
  - intros src [Hsrc | Hsrc]%elem_of_app; auto.
    apply Hin. now apply elem_of_insertionOrder in Hsrc.
Qed.

Lemma stopSession_tracked w : sourcesTracked w -> sourcesTracked (stopSession w).
Proof.
  unfold sourcesTracked, stopSession, flushSources, emit. world w.
  intros (Hin & Hst & Hsp).
  destruct wAct, wStr; cbn in *;
    rewrite ?started_app, ?stopped_app, ?started_stops, ?stopped_stops; cbn;
    rewrite ?app_nil_r; repeat split; auto.
  all: try (intros src Hsrc; apply elem_of_empty in Hsrc; contradiction).
  all: intros src Hsrc; rewrite ?elem_of_app in Hsrc;
    destruct Hsrc as [Hsrc | Hsrc]; auto;
    apply Hin; now apply elem_of_insertionOrder in Hsrc.
Qed.

Lemma step_tracked w e : sourcesTracked w -> sourcesTracked (step w e).
Proof.
  intros H.
  destruct e as [ | i | | | task | task msg | k | k | k b | m | task buf
                | task | src | | | df | ms ]; cbn [step].
  - unfold clickMic. destruct (sessionState w);
      [ | exact H | now apply stopSession_tracked | ];
      revert H; unfold sourcesTracked; world w; auto.
  - unfold clickPrompt. repeat case_match; try exact H.
    revert H; unfold sourcesTracked; world w; auto.
  - revert H; unfold sourcesTracked; world w; auto.
  - now apply stopSession_tracked.
  - unfold getUserMedia_resolved. repeat case_match; try exact H.
    revert H; unfold sourcesTracked, emit; world w; cbn.
    rewrite started_app, stopped_app; cbn. now rewrite !app_nil_r.
  - unfold startSession_catch. repeat case_match; try exact H.
    revert H; unfold sourcesTracked; world w; auto.
  - unfold onopen, sessionPromise_then, runThen, emit.
    revert H; unfold sourcesTracked; world w; cbn.
    repeat (case_match; cbn in *; simplify_eq);
      rewrite ?started_app, ?stopped_app; cbn; rewrite ?app_nil_r; auto.
  - unfold sessionPromise_resolved. repeat case_match; try exact H.
    match goal with |- sourcesTracked (foldl ?f ?w0 ?ts) =>
      destruct (runThens_sources k ts w0) as (Hs1 & Hs2 & Hs3 & Hs4)
    end.
    unfold sourcesTracked. rewrite Hs1, Hs2, Hs3, Hs4.
    revert H; unfold sourcesTracked; world w; auto.
  - unfold onaudioprocess, sessionPromise_then, runThen, emit.
    revert H; unfold sourcesTracked; world w; cbn.
    repeat (case_match; cbn in *; simplify_eq);
      rewrite ?started_app, ?stopped_app; cbn; rewrite ?app_nil_r; auto.
  - unfold onmessage. rewrite hasAudio_transcript.
    destruct (transcript_shape m w) as (ms & uu & ci & co & ->).
    assert (H1 : sourcesTracked
                   (set_messages ms (set_uuids uu
                      (set_currentInputRef ci (set_currentOutputRef co w)))))
      by (revert H; unfold sourcesTracked; world w; auto).
    destruct (hasAudio m w).
    + revert H1; unfold sourcesTracked; world w; auto.
    + unfold handleInterrupted. destruct (interrupted m); [|exact H1].
      now apply flushSources_tracked.
  - unfold decode_resolved. destruct (decodeTasks w !! task) as [t|]; [|exact H].
    destruct (decodeDone t); [exact H|]. cbn zeta.
    match goal with |- sourcesTracked (handleInterrupted _ ?v) =>
      assert (H1 : sourcesTracked v)
    end.
    { revert H; unfold sourcesTracked, finishDecode, emit; world w; cbn.
      intros (Hin & Hst & Hsp).
      rewrite started_app, stopped_app; cbn. rewrite app_nil_r.
      repeat split.
      - intros x [Hx | Hx]%elem_of_union.
        + apply elem_of_singleton in Hx. lia.
        + specialize (Hin x Hx). lia.
      - unfold started in *. rewrite Hst.
        change (0%nat :: seq 1 wNsrc) with (seq 0 (S wNsrc)).
        now rewrite seq_S.
      - intros x Hx. specialize (Hsp x Hx). lia. }
    unfold handleInterrupted. destruct (decodeInterrupted t); [|exact H1].
    now apply flushSources_tracked.
  - unfold decode_rejected. repeat case_match; try exact H.
    revert H; unfold sourcesTracked; world w; auto.
  - revert H; unfold sourcesTracked, onended; world w; cbn.
    intros (Hin & Hst & Hsp). repeat split; auto.
    intros x Hx. apply Hin. now apply elem_of_difference in Hx as [Hx _].
  - unfold onerror. apply stopSession_tracked.
    revert H; unfold sourcesTracked, emit; world w; cbn.
    rewrite started_app, stopped_app; cbn. now rewrite !app_nil_r.
  - now apply stopSession_tracked.
  - revert H; unfold sourcesTracked; world w; auto.
  - revert H; unfold sourcesTracked; world w; auto.
Qed.

(** X4.  In every world reachable from the first render, no source has
    [start] called on it twice, [stop] is only ever called on a source that
    was started before, and the set of playing sources holds started
    sources only. *)
Theorem X4_sources_started_once (es : list Event) :
  let w := run initial es in
  NoDup (started (effects w)) /\
  (forall src, src ∈ stopped (effects w) -> src ∈ started (effects w)) /\
  (forall src, src ∈ sourcesRef w -> src ∈ started (effects w)).
Proof.
  assert (H : forall w, sourcesTracked w -> sourcesTracked (run w es)).
  { induction es as [|e es IH]; intros w Hw; [exact Hw|].
    rewrite run_cons. apply IH, step_tracked, Hw. }
  destruct (H initial) as (Hin & Hst & Hsp).
  { repeat split; cbn; auto.
    - intros src Hsrc. apply elem_of_empty in Hsrc. contradiction.
    - intros src Hsrc. inversion Hsrc. }
  cbn zeta. rewrite Hst. repeat split.
  - apply NoDup_seq.
  - intros src Hsrc. apply elem_of_seq. specialize (Hsp src Hsrc). lia.
  - intros src Hsrc. apply elem_of_seq. specialize (Hin src Hsrc). lia.
Qed.

(** ** The session handle *)

(** X5.  In every world reachable from the first render the handle held in
    [activeSessionRef], when there is one, belongs to a session whose
    promise has resolved and on which [close()] has not been called; and
    [close()] is only ever called on sessions whose promise has resolved. *)
Theorem X5_handle_is_live (es : list Event) (k : nat) :
  let w := run initial es in
  (activeSessionRef w = Some k -> (k ∉ closes (effects w)) /\ isSettled k w) /\
  (k ∈ closes (effects w) -> isSettled k w).
Proof.
  destruct (run_closeOnce es initial) as (_ & Hcl & Hact).
  { repeat split; cbn; try constructor; try discriminate.
    all: intros x Hx; inversion Hx. }
  cbn zeta. split; [apply Hact | apply Hcl].
Qed.

(** ** The greeting *)

Lemma sentTexts_app l1 l2 : sentTexts (l1 ++ l2) = sentTexts l1 ++ sentTexts l2.
Proof. apply omap_app. Qed.

(** X6.  For a session started from a starter prompt, the prompt is handed
    to [sendRealtimeInput] exactly once, on that session, whichever of
    [onopen] and the resolution of the promise comes first, and never before
    the promise has resolved. *)
Theorem X6_greeting_sent_once (w : World) (k : nat) (txt : string)
    (Hk : sessionPromises w !! k
          = Some {| initialText := Some txt; opened := false;
                    settled := false; thens := [] |})
    (Htxt : truthy txt = true) :
  sentTexts (effects (step w (OnOpen k))) = sentTexts (effects w) /\
  sentTexts (effects (run w [OnOpen k; SessionResolved k]))
  = sentTexts (effects w) ++ [(k, txt)] /\
  sentTexts (effects (run w [SessionResolved k; OnOpen k]))
  = sentTexts (effects w) ++ [(k, txt)].
Proof.
  assert (Hlen : (k < length (sessionPromises w))%nat)
    by (eapply lookup_lt_Some; eauto).
  unfold run. cbn [foldl step].
  unfold onopen, sessionPromise_resolved, sessionPromise_then, runThen, emit.
  world w. cbn in *. rewrite Hk. cbn. rewrite Htxt. cbn.
  repeat (rewrite ?list_lookup_insert_eq by (rewrite ?length_insert; exact Hlen);
          cbn; rewrite ?Htxt; cbn).
  rewrite ?sentTexts_app. cbn. rewrite ?app_nil_r. auto.
Qed.

Lemma X6_greeting_sent_once_witness :
  let w := run initial [ClickPrompt 2; GetUserMediaResolved 0] in
  sentTexts (effects (run w [OnOpen 0; SessionResolved 0]))
  = [(0%nat, "I just need someone to listen.")] /\
  sentTexts (effects (run w [SessionResolved 0; OnOpen 0]))
  = [(0%nat, "I just need someone to listen.")].
Proof.
  cbn zeta.
  destruct (X6_greeting_sent_once
              (run initial [ClickPrompt 2; GetUserMediaResolved 0]) 0
              "I just need someone to listen." eq_refl eq_refl)
    as (_ & H1 & H2).
  rewrite H1, H2. split; reflexivity.
Defined.

(** ** Capture before the handle is installed *)

Lemma runThens_media k ts : forall w,
  is_Some (activeSessionRef w) ->
  sentMedia (effects (foldl (fun w t => runThen k t w) w ts))
  = sentMedia (effects w) ++ map (pair k) (queuedMedia ts).
Proof.
  induction ts as [|t ts IH]; intros w Hact; cbn.
  - now rewrite app_nil_r.
  - rewrite IH.
    + world w. destruct Hact as [a Ha]. cbn in Ha. subst wAct.
      destruct t; unfold runThen, emit; cbn;
        rewrite sentMedia_app; cbn; rewrite ?app_nil_r, <- ?app_assoc; reflexivity.
    + world w. destruct Hact as [a Ha]. cbn in Ha. subst wAct.
      destruct t; unfold runThen, emit; cbn; eauto.
Qed.

Lemma capture_queued k bs : forall w p,
  sessionPromises w !! k = Some p -> opened p = true -> settled p = false ->
  let w1 := run w (map (OnAudioProcess k) bs) in
  effects w1 = effects w /\
  sessionPromises w1 !! k
  = Some {| initialText := initialText p; opened := true; settled := false;
            thens := thens p ++ map ThenSendMedia bs |}.
Proof.
  induction bs as [|b bs IH]; intros w p Hk Hop Hse; cbn zeta.
  - cbn. split; [reflexivity|]. rewrite app_nil_r, Hk.
    destruct p; cbn in *; now subst.
  - cbn [map]. rewrite run_cons.
    assert (Hlen : (k < length (sessionPromises w))%nat)
      by (eapply lookup_lt_Some; eauto).
    assert (Hstep : effects (step w (OnAudioProcess k b)) = effects w /\
                    sessionPromises (step w (OnAudioProcess k b)) !! k
                    = Some {| initialText := initialText p; opened := opened p;
                              settled := false; thens := thens p ++ [ThenSendMedia b] |}).
    { cbn [step]. unfold onaudioprocess, sessionPromise_then.
      rewrite Hk, Hop, Hse. world w. cbn in *.
      now rewrite list_lookup_insert_eq. }
    destruct Hstep as [Heff Hk'].
    destruct (IH _ _ Hk' Hop eq_refl) as [-> ->]. cbn.
    rewrite <- app_assoc. split; [exact Heff | reflexivity].
Qed.

Lemma queuedMedia_app ts1 ts2 : queuedMedia (ts1 ++ ts2) = queuedMedia ts1 ++ queuedMedia ts2.
Proof. apply omap_app. Qed.

Lemma queuedMedia_frames bs : queuedMedia (map ThenSendMedia bs) = bs.
Proof. induction bs as [|b bs IH]; [reflexivity|]. cbn. f_equal. exact IH. Qed.

(** X7.  Frames captured between [onopen] and the resolution of the promise
    are held back: none is sent while the promise is pending, and the
    resolution sends all of them, on that session, in capture order, after
    the frames that were already waiting. *)
Theorem X7_queued_frames_in_order (w : World) (k : nat) (p : SessionPromise)
    (bs : list string)
    (Hk : sessionPromises w !! k = Some p)
    (Hopened : opened p = true)
    (Hpending : settled p = false) :
  let w1 := run w (map (OnAudioProcess k) bs) in
  sentMedia (effects w1) = sentMedia (effects w) /\
  sentMedia (effects (step w1 (SessionResolved k)))
  = sentMedia (effects w) ++ map (pair k) (queuedMedia (thens p) ++ bs).
Proof.
  cbn zeta. destruct (capture_queued k bs w p Hk Hopened Hpending) as [Heff Hk1].
  cbn zeta in Heff, Hk1. split; [now rewrite Heff|].
  cbn [step]. unfold sessionPromise_resolved. rewrite Hk1. cbn.
  rewrite runThens_media.
  - rewrite queuedMedia_app, queuedMedia_frames. f_equal.
    generalize dependent (run w (map (OnAudioProcess k) bs)). intros v Heff _.
    world v. cbn in *. now rewrite Heff.
  - generalize (run w (map (OnAudioProcess k) bs)). intros v. world v. cbn. eauto.
Qed.

Lemma X7_queued_frames_in_order_witness :
  let w := run initial [ClickMic; GetUserMediaResolved 0; OnOpen 0] in
  sentMedia (effects (run w (map (OnAudioProcess 0) ["AAAA"; "BBBB"; "CCCC"]))) = [] /\
  sentMedia (effects (step (run w (map (OnAudioProcess 0) ["AAAA"; "BBBB"; "CCCC"]))
                           (SessionResolved 0)))
  = [(0%nat, "AAAA"); (0%nat, "BBBB"); (0%nat, "CCCC")].
Proof.
  cbn zeta.
  destruct (X7_queued_frames_in_order
              (run initial [ClickMic; GetUserMediaResolved 0; OnOpen 0]) 0
              {| initialText := None; opened := true; settled := false; thens := [] |}
              ["AAAA"; "BBBB"; "CCCC"] eq_refl eq_refl eq_refl) as [H1 H2].
  rewrite H1, H2. split; reflexivity.
Defined.

(** ** Decoding that fails or finishes late *)

(** X8.  When [decodeAudioData] throws, the rest of the handler is skipped:
    nothing is started or stopped, the set of playing sources is as before,
    and the clock stays at the value line 154 gave it.  This holds also for
    a message that carries [interrupted]: its flush never runs. *)
Theorem X8_decode_failure_skips_rest (w : World) (m : LiveServerMessage)
    (Haudio : hasAudio m w = true) :
  let w' := run w [OnMessage m; DecodeRejected (length (decodeTasks w))] in
  effects w' = effects w /\
  sourcesRef w' = sourcesRef w /\
  nextStartTimeRef w' = Z.max (nextStartTimeRef w) (currentTime w) /\
  pending (length (decodeTasks w)) w' = false.
Proof.
  unfold run. cbn [foldl step]. unfold onmessage, decode_rejected, pending.
  rewrite hasAudio_transcript, Haudio.
  destruct (transcript_shape m w) as (ms & uu & ci & co & ->).
  world w. unfold finishDecode. cbn.
  rewrite list_lookup_middle by reflexivity. cbn.
  rewrite list_lookup_alter, list_lookup_middle by reflexivity. cbn.
  case_decide; [|congruence]. cbn. auto.
Qed.

Lemma X8_decode_failure_skips_rest_witness :
  let m := {| outputTranscription := None; inputTranscription := None;
              turnComplete := false; inlineData := Some "AAAA";
              interrupted := true |} in
  hasAudio m playingWorld = true /\
  sourcesRef (run playingWorld [OnMessage m; DecodeRejected 1]) = sourcesRef playingWorld /\
  stopped (effects (run playingWorld [OnMessage m; DecodeRejected 1])) = [].
Proof.
  cbn zeta. split; [reflexivity|].
  destruct (X8_decode_failure_skips_rest playingWorld
              {| outputTranscription := None; inputTranscription := None;
                 turnComplete := false; inlineData := Some "AAAA";
                 interrupted := true |} eq_refl) as (Heff & Hsrc & _).
  split; [exact Hsrc|]. cbn zeta in Heff.
  change (length (decodeTasks playingWorld)) with 1%nat in Heff.
  rewrite Heff. vm_compute. reflexivity.
Defined.

Lemma stopSession_decode w :
  decodeTasks (stopSession w) = decodeTasks w /\
  sourcesCreated (stopSession w) = sourcesCreated w.
Proof. world w. destruct wAct, wStr; split; reflexivity. Qed.

Lemma decode_resolved_state task buffer w :
  sessionState (decode_resolved task buffer w) = sessionState w.
Proof.
  unfold decode_resolved, handleInterrupted, flushSources, finishDecode, emit.
  world w. cbn. repeat (case_match; cbn); reflexivity.
Qed.

(** X9.  [stopSession] does not cancel a decode in progress, and the
    continuation makes no test of the session state: a chunk whose decoding
    finishes after the stop is still started, at time 0, while the state is
    [disconnected]. *)
Theorem X9_late_decode_still_plays (w : World) (task : nat) (buffer : AudioBuffer)
    (Hpending : pending task w = true) :
  let w' := step (stopSession w) (DecodeResolved task buffer) in
  sessionState w' = disconnected /\
  schedule w' = schedule w ++ [(0, duration buffer)].
Proof.
  cbn zeta. destruct (stopSession_fields w) as (Hst & _ & _ & _ & Hclk).
  destruct (stopSession_decode w) as [Hdec _].
  split.
  - cbn [step]. now rewrite decode_resolved_state.
  - rewrite step_schedule. unfold scheduled, pending in *. rewrite Hdec, Hclk.
    rewrite Hpending.
    pose proof (step_schedule w Unmount) as H. cbn in H.
    rewrite app_nil_r in H. now rewrite H.
Qed.

Lemma X9_late_decode_still_plays_witness :
  let w := step connectedWorld (OnMessage (audioChunk "AAAA")) in
  pending 0 w = true /\
  schedule (step (stopSession w) (DecodeResolved 0 chunk100ms)) = [(0, 2400)].
Proof.
  cbn zeta. split; [reflexivity|].
  destruct (X9_late_decode_still_plays
              (step connectedWorld (OnMessage (audioChunk "AAAA"))) 0 chunk100ms eq_refl)
    as [_ H].
  rewrite H. vm_compute. reflexivity.
Defined.

(** ** A start that fails *)

(** X10.  When [startSession] fails at one of its awaits (microphone
    refused, for instance), the [catch] block shows [err.message], or
    "Could not reach the sanctuary." when the message is missing or empty,
    and sets the state to [disconnected]; it opens no session, makes no
    external call, and leaves handle, stream and clock alone.  The
    microphone button then starts a fresh attempt, which clears the
    message. *)
Theorem X10_failed_start (w : World) (task : nat) (t : StartTask)
    (message : option string)
    (Htask : startTasks w !! task = Some t)
    (Hpending : startDone t = false) :
  let w' := step w (StartRejected task message) in
  error w' = Some match message with
                  | Some s => if bool_decide (s = "") then NO_SANCTUARY else s
                  | None => NO_SANCTUARY
                  end /\
  sessionState w' = disconnected /\
  effects w' = effects w /\
  sessionPromises w' = sessionPromises w /\
  activeSessionRef w' = activeSessionRef w /\
  streamRef w' = streamRef w /\
  nextStartTimeRef w' = nextStartTimeRef w /\
  sessionState (clickMic w') = connecting /\
  error (clickMic w') = None /\
  length (startTasks (clickMic w')) = S (length (startTasks w)).
Proof.
  cbn [step]. unfold startSession_catch, clickMic, startSession, finishStart, or_else.
  rewrite Htask, Hpending. world w. cbn.
  rewrite length_app, length_alter. cbn.
  repeat match goal with |- _ /\ _ => split end; auto; try lia.
  destruct message as [[|c s]|]; reflexivity.
Qed.

Lemma X10_failed_start_witness :
  let w := step initial ClickMic in
  startTasks w !! 0%nat = Some {| startText := None; startDone := false |} /\
  error (step w (StartRejected 0 (Some "Permission denied"))) = Some "Permission denied" /\
  error (step w (StartRejected 0 (Some ""))) = Some NO_SANCTUARY /\
  sessionState (step w (StartRejected 0 None)) = disconnected.
Proof.
  cbn zeta. split; [reflexivity|].
  destruct (X10_failed_start (step initial ClickMic) 0
              {| startText := None; startDone := false |}
              (Some "Permission denied") eq_refl eq_refl) as (H1 & _).
  destruct (X10_failed_start (step initial ClickMic) 0
              {| startText := None; startDone := false |}
              (Some "") eq_refl eq_refl) as (H2 & _).
  destruct (X10_failed_start (step initial ClickMic) 0
              {| startText := None; startDone := false |}
              None eq_refl eq_refl) as (_ & H3 & _).
  cbn zeta in H1, H2, H3. rewrite H1, H2, H3. repeat split; reflexivity.
Defined.

(** ** The persona *)

Lemma pageStep_name stringify pg e :
  name (persona (pageStep stringify pg e)) = name (persona pg).
Proof. destruct e; reflexivity. Qed.

Lemma pageStep_storage stringify pg e :
  (if e is SaveSettings then True
   else storage (pageStep stringify pg e) = storage pg).
Proof. destruct e; auto. Qed.

(** X12.  No control of the page changes the persona's [name], and
    [localStorage] is written by "Save & Protect" only: edits made in the
    settings panel and closed without saving live in the [persona] state,
    but a page mounted afterwards still loads what was stored before. *)
Theorem X12_edits_unsaved (JSON_stringify : PersonaConfig -> string)
    (pg : Page) (es : list PageEvent) :
  name (persona (pageRun JSON_stringify pg es)) = name (persona pg) /\
  (noSave es = true ->
   storage (pageRun JSON_stringify pg es) = storage pg /\
   forall JSON_parse,
     persona (mount JSON_parse (storage (pageRun JSON_stringify pg es)))
     = loadPersona JSON_parse (storage pg)).
Proof.
  revert pg. induction es as [|e es IH]; intros pg.
  - cbn. auto.
  - unfold pageRun in *. cbn [foldl].
    destruct (IH (pageStep JSON_stringify pg e)) as [Hname Hsave].
    split; [now rewrite Hname, pageStep_name|].
    intros Hes. cbn in Hes. apply andb_prop in Hes as [He Hes].
    destruct (Hsave Hes) as [Hst Hload].
    pose proof (pageStep_storage JSON_stringify pg e) as Hstep.
    destruct e; try discriminate; rewrite Hst, Hstep; split; auto.
    all: intros parse; cbn; reflexivity.
Qed.

Lemma X12_edits_unsaved_witness :
  let stringify := fun _ : PersonaConfig => "Kore" in
  let es := [OpenSettings; EditInstruction "Be brief."; ChooseVoice Puck; CloseSettings] in
  noSave es = true /\
  instruction (persona (pageRun stringify (mount (fun _ => None) None) es)) = "Be brief." /\
  storage (pageRun stringify (mount (fun _ => None) None) es) = None.
Proof.
  cbn zeta. split; [reflexivity|]. split; [reflexivity|].
  destruct (X12_edits_unsaved (fun _ : PersonaConfig => "Kore")
              (mount (fun _ => None) None)
              [OpenSettings; EditInstruction "Be brief."; ChooseVoice Puck; CloseSettings])
    as [_ H].
  destruct (H eq_refl) as [-> _]. reflexivity.
Defined.

(** ** The visualizer *)

Lemma rayIndex_exact (e i : Z) :
  4 <= e <= 14 -> 0 <= i < rays ->
  rayIndex i (2 ^ e) = Some (i * 2 ^ e / 144).
Proof.
  intros He Hi. unfold rays in Hi.
  assert (Hall : forallb (fun ei => bool_decide (rayIndex ei.2 (2 ^ ei.1)
                                                = Some (ei.2 * 2 ^ ei.1 / 144)))
                         rayTable = true) by (vm_compute; reflexivity).
  rewrite forallb_forall in Hall.
  assert (Hin : In (e, i) rayTable); [|apply Hall, bool_decide_eq_true in Hin; exact Hin].
  unfold rayTable. apply in_flat_map. exists e. split.
  - apply in_map_iff. exists (Z.to_nat e). split; [lia|]. apply in_seq. lia.
  - apply in_map, in_map_iff. exists (Z.to_nat i). split; [lia|]. apply in_seq. lia.
Qed.

(** X13.  [bufferLength] is [analyser.frequencyBinCount], a power of two
    from 2^4 to 2^14.  For each of these and each of the 72 rays, the
    double computed at line 51 floors to the exact quotient
    [i * bufferLength / 144]; the bin read at line 52 therefore exists and
    lies in the lower half of [dataArray], and the bins read do not
    decrease from ray to ray.  With the 128 bins that the [fftSize] of 256
    set by [App] gives, the rays read every bin from 0 to 63.  Off the
    powers of two the rounding of [i / rays] shows: for ray 46 and a
    length of 360 the code computes 114, under the exact quotient 115. *)
Theorem X13_ray_index_in_range (i j e : Z)
    (He : 4 <= e <= 14) (Hi : 0 <= i <= j) (Hj : j < rays) :
  (exists a b,
     rayIndex i (2 ^ e) = Some a /\
     rayIndex j (2 ^ e) = Some b /\
     a = i * 2 ^ e / 144 /\
     0 <= a /\ a <= b /\ 2 * b < 2 ^ e) /\
  (forall bin, 0 <= bin < 64 ->
     exists r, 0 <= r < rays /\ rayIndex r 128 = Some bin) /\
  rayIndex 46 360 = Some 114 /\
  46 * 360 / 144 = 115.
Proof.
  pose proof Hj as Hj'. unfold rays in Hj'.
  assert (Hpow : 0 < 2 ^ e) by (apply Z.pow_pos_nonneg; lia).
  split; [|split; [|split; vm_compute; reflexivity]].
  - exists (i * 2 ^ e / 144), (j * 2 ^ e / 144).
    rewrite !rayIndex_exact by (unfold rays; lia).
    repeat match goal with |- _ /\ _ => split end; try reflexivity.
    + apply Z.div_pos; nia.
    + apply Z.div_le_mono; nia.
    + pose proof (Z.mul_div_le (j * 2 ^ e) 144 ltac:(lia)). nia.
  - intros bin Hbin. exists ((9 * bin + 7) / 8).
    assert (Hcases : forallb (fun b => (0 <=? (9 * b + 7) / 8)
                                       && ((9 * b + 7) / 8 <? 72)
                                       && (((9 * b + 7) / 8 * 128) / 144 =? b))
                             (map Z.of_nat (seq 0 64)) = true)
      by (vm_compute; reflexivity).
    rewrite forallb_forall in Hcases. specialize (Hcases bin).
    rewrite !andb_true_iff in Hcases.
    destruct Hcases as [[H1 H2] H3].
    + apply in_map_iff. exists (Z.to_nat bin). split; [lia|].
      apply in_seq. lia.
    + unfold rays. split; [lia|].
      change 128 with (2 ^ 7). rewrite rayIndex_exact by (unfold rays; lia).
      f_equal. change (2 ^ 7) with 128. lia.
Qed.

Lemma X13_ray_index_in_range_witness :
  (4 <= 7 <= 14) /\ (0 <= 9 <= 71) /\ 71 < rays /\
  map (fun i => rayIndex i 128) [0; 1; 8; 9; 10; 71]
  = [Some 0; Some 0; Some 7; Some 8; Some 8; Some 63] /\
  exists a b, rayIndex 9 (2 ^ 7) = Some a /\ rayIndex 71 (2 ^ 7) = Some b /\
              a <= b /\ 2 * b < 2 ^ 7.
Proof.
  split; [lia|]. split; [lia|]. split; [reflexivity|].
  split; [vm_compute; reflexivity|].
  destruct (X13_ray_index_in_range 9 71 7)
    as ((a & b & Ha & Hb & _ & _ & Hab & Hb2) & _); [lia | lia | reflexivity |].
  exists a, b. auto.
Defined.

(** ** The microphone stream *)

Lemma trackStops_app l1 l2 : trackStops (l1 ++ l2) = trackStops l1 ++ trackStops l2.
Proof. apply omap_app. Qed.

Lemma trackStops_stops (s : list nat) : trackStops (map SourceStop s) = [].
Proof. induction s; cbn; auto. Qed.

Lemma tracksTracked_frame w w' :
  trackStops (effects w') = trackStops (effects w) ->
  streamRef w' = streamRef w ->
  streamsGranted w' = streamsGranted w ->
  tracksTracked w -> tracksTracked w'.
Proof.
  intros He Hs Hg H. unfold tracksTracked. now rewrite He, Hs, Hg.
Qed.

Lemma stopSession_tracks w : tracksTracked w -> tracksTracked (stopSession w).
Proof.
  unfold tracksTracked, stopSession, flushSources, emit. world w.
  intros (Hnd & Hgr & Hheld).
  destruct wAct, wStr as [st|]; cbn in *;
    rewrite ?trackStops_app, ?trackStops_stops; cbn; rewrite ?app_nil_r;
    repeat split; auto; try discriminate.
  all: destruct (Hheld st eq_refl) as [Hlt Hnew].
  all: try (apply NoDup_app; repeat split; auto;
            [intros x Hx Hx'; apply list_elem_of_singleton in Hx'; now subst
            |apply NoDup_singleton]).
  all: intros x [Hx | Hx]%elem_of_app; auto;
    apply list_elem_of_singleton in Hx; now subst.
Qed.

Lemma runThens_tracks k ts : forall w,
  trackStops (effects (foldl (fun w t => runThen k t w) w ts)) = trackStops (effects w) /\
  streamRef (foldl (fun w t => runThen k t w) w ts) = streamRef w /\
  streamsGranted (foldl (fun w t => runThen k t w) w ts) = streamsGranted w.
Proof.
  induction ts as [|t ts IH]; intros w; cbn; auto.
  destruct (IH (runThen k t w)) as (-> & -> & ->).
  world w. destruct t; unfold runThen, emit; cbn; [|destruct wAct; cbn];
    rewrite ?trackStops_app; cbn; rewrite ?app_nil_r; auto.
Qed.

Lemma step_tracks w e : tracksTracked w -> tracksTracked (step w e).
Proof.
  intros H.
  destruct e as [ | i | | | task | task msg | k | k | k b | m | task buf
                | task | src | | | df | ms ]; cbn [step].
  - unfold clickMic. destruct (sessionState w);
      [ | exact H | now apply stopSession_tracks | ];
      (eapply tracksTracked_frame; [| | |exact H]; world w; reflexivity).
  - unfold clickPrompt. repeat case_match; try exact H.
    eapply tracksTracked_frame; [| | |exact H]; world w; reflexivity.
  - eapply tracksTracked_frame; [| | |exact H]; world w; reflexivity.
  - now apply stopSession_tracks.
  - unfold getUserMedia_resolved. repeat case_match; try exact H.
    revert H. unfold tracksTracked, finishStart, emit. world w. cbn.
    rewrite trackStops_app. cbn. rewrite app_nil_r.
    intros (Hnd & Hgr & Hheld). repeat split; auto.
    + intros st Hst. specialize (Hgr st Hst). lia.
    + simplify_eq. lia.
    + simplify_eq. intros Hin. specialize (Hgr _ Hin). lia.
  - unfold startSession_catch. repeat case_match; try exact H.
    eapply tracksTracked_frame; [| | |exact H]; world w; reflexivity.
  - unfold onopen, sessionPromise_then, runThen, emit.
    eapply tracksTracked_frame; [| | |exact H]; world w; cbn;
      repeat (case_match; cbn in *; simplify_eq);
      rewrite ?trackStops_app; cbn; rewrite ?app_nil_r; auto.
  - unfold sessionPromise_resolved. repeat case_match; try exact H.
    match goal with |- tracksTracked (foldl ?f ?w0 ?ts) =>
      destruct (runThens_tracks k ts w0) as (Ht1 & Ht2 & Ht3)
    end.
    eapply tracksTracked_frame; [| | |exact H].
    + rewrite Ht1. world w. reflexivity.
    + rewrite Ht2. world w. reflexivity.
    + rewrite Ht3. world w. reflexivity.
  - unfold onaudioprocess, sessionPromise_then, runThen, emit.
    eapply tracksTracked_frame; [| | |exact H]; world w; cbn;
      repeat (case_match; cbn in *; simplify_eq);
      rewrite ?trackStops_app; cbn; rewrite ?app_nil_r; auto.
  - unfold onmessage. rewrite hasAudio_transcript.
    destruct (transcript_shape m w) as (ms & uu & ci & co & ->).
    unfold handleInterrupted, flushSources.
    eapply tracksTracked_frame; [| | |exact H]; world w; cbn;
      repeat (case_match; cbn in *; simplify_eq);
      rewrite ?trackStops_app, ?trackStops_stops; cbn; rewrite ?app_nil_r; auto.
  - unfold decode_resolved, handleInterrupted, flushSources, finishDecode, emit.
    eapply tracksTracked_frame; [| | |exact H]; world w; cbn;
      repeat (case_match; cbn in *; simplify_eq);
      rewrite ?trackStops_app, ?trackStops_stops; cbn; rewrite ?app_nil_r; auto.
  - unfold decode_rejected. repeat case_match; try exact H.
    eapply tracksTracked_frame; [| | |exact H]; world w; reflexivity.
  - eapply tracksTracked_frame; [| | |exact H]; world w; reflexivity.
  - unfold onerror. apply stopSession_tracks.
    eapply tracksTracked_frame; [| | |exact H]; world w; unfold emit; cbn;
      rewrite ?trackStops_app; cbn; rewrite ?app_nil_r; auto.
  - now apply stopSession_tracks.
  - eapply tracksTracked_frame; [| | |exact H]; world w; reflexivity.
  - eapply tracksTracked_frame; [| | |exact H]; world w; reflexivity.
Qed.

(** X14.  In every world reachable from the first render, the tracks of a
    microphone stream are never stopped twice, only streams granted by
    [getUserMedia] are stopped, and the stream held in [streamRef] is one
    whose tracks are still running. *)
Theorem X14_tracks_stopped_once (es : list Event) :
  let w := run initial es in
  NoDup (trackStops (effects w)) /\
  (forall st, st ∈ trackStops (effects w) -> (st < streamsGranted w)%nat) /\
  (forall st, streamRef w = Some st -> st ∉ trackStops (effects w)).
Proof.
  assert (H : forall w, tracksTracked w -> tracksTracked (run w es)).
  { induction es as [|e es IH]; intros w Hw; [exact Hw|].
    rewrite run_cons. apply IH, step_tracks, Hw. }
  destruct (H initial) as (Hnd & Hgr & Hheld).
  { repeat split; cbn; try constructor; try discriminate.
    intros st Hst. inversion Hst. }
  cbn zeta. repeat split; auto. intros st Hst. now apply Hheld.
Qed.

(** ** Times passed to the audio context *)

Lemma step_currentTime w e : 0 <= currentTime w -> 0 <= currentTime (step w e).
Proof.
  intros H. step_cases w e.
  all: repeat (case_match; cbn in *; simplify_eq); try lia.
Qed.

Lemma step_timesValid w e : timesValid w -> timesValid (step w e).
Proof.
  intros (Hnow & Hclk & Hsch). unfold timesValid.
  rewrite step_clock, step_schedule. repeat split.
  - now apply step_currentTime.
  - unfold clockAfter. destruct (isFlush w e); [lia|].
    destruct e; try lia.
    + destruct (hasAudio m w); lia.
    + pose proof (duration_nonneg buffer). destruct (pending task w); lia.
  - apply Forall_app. split; [exact Hsch|].
    unfold scheduled. destruct e; try constructor.
    destruct (pending task w); repeat constructor; cbn; auto.
    apply duration_nonneg.
Qed.

(** X15.  In every world reachable from the first render the clock is not
    negative and every [source.start(when)] so far was called with a
    [when] that is not negative (a negative one makes [start] throw), for a
    buffer of non-negative duration. *)
Theorem X15_start_times_valid (es : list Event) :
  0 <= nextStartTimeRef (run initial es) /\
  Forall (fun x => 0 <= fst x /\ 0 <= snd x) (schedule (run initial es)).
Proof.
  assert (H : forall w, timesValid w -> timesValid (run w es)).
  { induction es as [|e es IH]; intros w Hw; [exact Hw|].
    rewrite run_cons. apply IH, step_timesValid, Hw. }
  destruct (H initial) as (_ & Hclk & Hsch).
  { repeat split; cbn; try lia. constructor. }
  split; assumption.
Qed.

(** ** Fragments of the two speakers *)

Lemma deltaMessage_step w d :
  let w' := step w (OnMessage (deltaMessage d)) in
  currentInputRef w'
  = currentInputRef w +:+ (if decide (fst d = user) then snd d else "") /\
  currentOutputRef w'
  = currentOutputRef w +:+ (if decide (fst d = model) then snd d else "") /\
  messages w' = messages w.
Proof.
  destruct d as [[] t]; world w; cbn; rewrite ?append_nil_r; auto.
Qed.

(** X16.  Over a run of messages that each carry one transcript delta, the
    fragments are sorted by speaker and kept in arrival order: the user
    accumulator grows by the user's deltas concatenated, the model
    accumulator by the model's, and nothing is logged until a
    [turnComplete] arrives, which then commits the trimmed texts. *)
Theorem X16_fragments_concatenate (w : World) (ds : list (Role * string)) :
  let w' := run w (map (fun d => OnMessage (deltaMessage d)) ds) in
  currentInputRef w' = currentInputRef w +:+ textsOf user ds /\
  currentOutputRef w' = currentOutputRef w +:+ textsOf model ds /\
  messages w' = messages w /\
  messages (step w' (OnMessage turnCompleteOnly))
  = messages w ++ newTurns w' (trim (currentInputRef w +:+ textsOf user ds))
                              (trim (currentOutputRef w +:+ textsOf model ds)).
Proof.
  cbn zeta.
  assert (H : currentInputRef (run w (map (fun d => OnMessage (deltaMessage d)) ds))
              = currentInputRef w +:+ textsOf user ds /\
              currentOutputRef (run w (map (fun d => OnMessage (deltaMessage d)) ds))
              = currentOutputRef w +:+ textsOf model ds /\
              messages (run w (map (fun d => OnMessage (deltaMessage d)) ds))
              = messages w).
  { revert w. induction ds as [|d ds IH]; intros w.
    - cbn. now rewrite !append_nil_r.
    - cbn [map]. rewrite run_cons.
      destruct (IH (step w (OnMessage (deltaMessage d)))) as (-> & -> & ->).
      destruct (deltaMessage_step w d) as (-> & -> & ->).
      cbn [textsOf]. rewrite !append_assoc.
      destruct d as [[] t]; cbn; auto. }
  destruct H as (Hin & Hout & Hms). repeat split; auto.
  cbn [step]. now rewrite turnCompleteOnly_messages, Hin, Hout, Hms.
Qed.

(** ** What the guards do ensure *)

(** X17.  [stopSession], [onclose] and [onerror] clear the session handle
    and hand no audio frame to the transport themselves.  While the handle
    stays cleared, that is over any run of later events in which no
    [sessionPromise] resolves (line 180 is the only place that sets it),
    the body of the capture callback (line 118) is the identity and not a
    single frame is passed to [sendRealtimeInput], however many capture
    callbacks fire. *)
Theorem X17_no_frame_without_handle (w : World) (es : list Event)
    (Hes : noResolution es = true) :
  Forall (fun s =>
            activeSessionRef s = None /\
            sentMedia (effects s) = sentMedia (effects w) /\
            (forall k pcmBlob, runThen k (ThenSendMedia pcmBlob) s = s) /\
            (forall k pcmBlob,
                sentMedia (effects (onaudioprocess k pcmBlob s))
                = sentMedia (effects w)) /\
            activeSessionRef (run s es) = None /\
            sentMedia (effects (run s es)) = sentMedia (effects w))
         [stopSession w; onclose w; onerror w].
Proof.
  assert (Hstop : forall v,
    sentMedia (effects v) = sentMedia (effects w) ->
    let s := stopSession v in
    activeSessionRef s = None /\
    sentMedia (effects s) = sentMedia (effects w) /\
    (forall k pcmBlob, runThen k (ThenSendMedia pcmBlob) s = s) /\
    (forall k pcmBlob,
        sentMedia (effects (onaudioprocess k pcmBlob s)) = sentMedia (effects w)) /\
    activeSessionRef (run s es) = None /\
    sentMedia (effects (run s es)) = sentMedia (effects w)).
  { intros v Hv. cbn zeta.
    destruct (stopSession_fields v) as (_ & Hact & _).
    pose proof (stopSession_sentMedia v) as Hsent. rewrite Hv in Hsent.
    destruct (run_no_handle es _ Hact Hes) as [Hact' Hsent'].
    repeat match goal with |- _ /\ _ => split end; auto.
    - intros k b. unfold runThen. now rewrite Hact.
    - intros k b.
      destruct (step_no_handle (stopSession v) (OnAudioProcess k b) Hact I) as [_ H].
      cbn in H. congruence.
    - congruence. }
  repeat constructor; try (apply Hstop; reflexivity).
  all: unfold onerror; apply Hstop; world w; unfold emit; cbn;
       rewrite sentMedia_app; cbn; now rewrite app_nil_r.
Qed.

(** Capture callbacks of the stopped and of the next session fire while the
    next promise is pending: nothing is sent. *)
Lemma X17_no_frame_without_handle_witness :
  noResolution captureAfterStop = true /\
  sentMedia (effects (run (stopSession connectedWorld) captureAfterStop)) = [].
Proof.
  split; [reflexivity|].
  pose proof (X17_no_frame_without_handle connectedWorld captureAfterStop eq_refl) as H.
  apply Forall_cons in H as [(_ & _ & _ & _ & _ & ->) _].
  vm_compute; reflexivity.
Defined.

(** X18.  Right after an event that runs the flush (a message
    with [interrupted] and no audio chunk, or the decode continuation of a
    message with [interrupted]; a stop behaves alike) the set of playing
    sources is empty and the clock is zero.  Whatever happens next ([es]),
    a chunk that arrives afterwards, and whose decoding is not cut across by
    a further flush ([mid]), is started at a time no earlier than the clock
    and the device time read at its arrival. *)
Theorem X18_chunk_after_flush (w : World) (e : Event) (es mid : list Event)
    (a : LiveServerMessage) (buffer : AudioBuffer)
    (Hflush : isFlush w e = true)
    (Haudio : hasAudio a (run (step w e) es) = true)
    (Hcalm : calm (length (decodeTasks (run (step w e) es)))
                  (step (run (step w e) es) (OnMessage a)) mid = true) :
  let wi := step w e in
  let w1 := run wi es in
  let task := length (decodeTasks w1) in
  let w2 := run (step w1 (OnMessage a)) mid in
  sourcesRef wi = ∅ /\
  nextStartTimeRef wi = 0 /\
  exists t,
    schedule (step w2 (DecodeResolved task buffer))
    = schedule w2 ++ [(t, duration buffer)] /\
    Z.max (nextStartTimeRef w1) (currentTime w1) <= t /\
    currentTime w1 <= t.
Proof.
  cbn zeta. split; [now apply step_flush_sources|].
  split; [rewrite step_clock; unfold clockAfter; now rewrite Hflush|].
  set (w1 := run (step w e) es) in *.
  destruct (onmessage_arrival a w1 Haudio) as [Hp Hclk].
  destruct (calm_run _ mid _ Hcalm Hp) as [Hp' Hle].
  exists (nextStartTimeRef (run (step w1 (OnMessage a)) mid)).
  split; [|lia].
  rewrite step_schedule. unfold scheduled. now rewrite Hp'.
Qed.

(** An interruption while a chunk plays; the next chunk arrives 50 ms later
    and takes 2 ms to decode. *)
Lemma X18_chunk_after_flush_witness :
  isFlush playingWorld (OnMessage interruptedOnly) = true /\
  let wi := step playingWorld (OnMessage interruptedOnly) in
  let w1 := run wi [DeviceTick 1200] in
  let w2 := run (step w1 (OnMessage (audioChunk "BBBB"))) [DeviceTick 48] in
  sourcesRef wi = ∅ /\
  nextStartTimeRef wi = 0 /\
  exists t,
    schedule (step w2 (DecodeResolved 1 chunk100ms))
    = schedule w2 ++ [(t, duration chunk100ms)] /\
    Z.max (nextStartTimeRef w1) (currentTime w1) <= t /\
    currentTime w1 <= t.
Proof.
  split; [vm_compute; reflexivity|].
  apply (X18_chunk_after_flush playingWorld (OnMessage interruptedOnly)
           [DeviceTick 1200] [DeviceTick 48] (audioChunk "BBBB") chunk100ms);
    vm_compute; reflexivity.
Defined.

(** X19.  [startSession] makes no test of [sessionState]; the page does:
    while the state is [connecting] the microphone button does nothing,
    while it is [connected] the button runs [stopSession], and a starter
    prompt does nothing in either state; hence no event at all calls
    [startSession] while the state is [connecting] or [connected]. *)
Theorem X19_start_gated_by_page (w : World) (e : Event)
    (Hstate : sessionState w = connecting \/ sessionState w = connected) :
  length (startTasks (step w e)) = length (startTasks w) /\
  (sessionState w = connecting -> clickMic w = w) /\
  (sessionState w = connected -> clickMic w = stopSession w) /\
  (forall i, clickPrompt i w = w).
Proof.
  repeat match goal with |- _ /\ _ => split end.
  - step_cases w e; subst; try reflexivity.
    all: destruct Hstate; subst; cbn.
    all: repeat (case_match; cbn in *; simplify_eq);
      rewrite ?length_alter; try reflexivity.
  - unfold clickMic. now intros ->.
  - unfold clickMic. now intros ->.
  - intros i. unfold clickPrompt. destruct Hstate as [-> | ->]; reflexivity.
Qed.

(** A starter prompt clicked while connected starts nothing. *)
Lemma X19_start_gated_by_page_witness :
  (sessionState connectedWorld = connecting \/ sessionState connectedWorld = connected) /\
  length (startTasks (step connectedWorld (ClickPrompt 0))) = 1%nat.
Proof.
  assert (H : sessionState connectedWorld = connecting \/
              sessionState connectedWorld = connected)
    by (right; vm_compute; reflexivity).
  split; [exact H|].
  destruct (X19_start_gated_by_page connectedWorld (ClickPrompt 0) H) as [-> _].
  vm_compute; reflexivity.
Defined.

(** ** A frame captured before the promise resolves *)

Lemma stopSession_promises w : sessionPromises (stopSession w) = sessionPromises w.
Proof. world w. destruct wAct, wStr; reflexivity. Qed.

Lemma install_frame s x ps :
  sessionState (set_activeSessionRef x (set_sessionPromises ps s)) = sessionState s /\
  activeSessionRef (set_activeSessionRef x (set_sessionPromises ps s)) = x /\
  effects (set_activeSessionRef x (set_sessionPromises ps s)) = effects s.
Proof. world s. auto. Qed.

(** X20.  A frame captured after [onopen] and before the promise of
    [ai.live.connect] resolves waits on the promise.  [stopSession] does
    not cancel it and, the handle not being set yet, closes nothing: when
    the promise resolves after the stop, line 180 installs the handle
    although the state is [disconnected], and the waiting frames are sent
    on that session. *)
Theorem X20_frame_in_flight_at_stop (w : World) (k : nat) (p : SessionPromise)
    (pcmBlob : string)
    (Hk : sessionPromises w !! k = Some p)
    (Hopened : opened p = true)
    (Hpending : settled p = false) :
  let w1 := stopSession (step w (OnAudioProcess k pcmBlob)) in
  let w2 := step w1 (SessionResolved k) in
  sessionState w1 = disconnected /\
  activeSessionRef w1 = None /\
  sentMedia (effects w1) = sentMedia (effects w) /\
  sessionState w2 = disconnected /\
  activeSessionRef w2 = Some k /\
  sentMedia (effects w2)
  = sentMedia (effects w) ++ map (pair k) (queuedMedia (thens p) ++ [pcmBlob]).
Proof.
  cbn zeta.
  destruct (capture_queued k [pcmBlob] w p Hk Hopened Hpending) as [Heff Hk1].
  cbn zeta in Heff, Hk1. cbn [map run foldl] in Heff, Hk1.
  set (v := step w (OnAudioProcess k pcmBlob)) in *.
  destruct (stopSession_fields v) as (Hst & Hact & _).
  pose proof (stopSession_sentMedia v) as Hsent. rewrite Heff in Hsent.
  pose proof (stopSession_promises v) as Hpr.
  split; [exact Hst|]. split; [exact Hact|]. split; [exact Hsent|].
  cbn [step]. unfold sessionPromise_resolved. rewrite Hpr, Hk1. cbn.
  set (u := set_activeSessionRef _ _).
  destruct (runThens_log k (thens p ++ [ThenSendMedia pcmBlob]) u) as [l Hl].
  assert (Hu : sessionState u = disconnected /\ activeSessionRef u = Some k /\
               sentMedia (effects u) = sentMedia (effects w)).
  { subst u.
    match goal with
    | |- context [set_activeSessionRef ?x (set_sessionPromises ?ps ?s)] =>
        destruct (install_frame s x ps) as (-> & -> & ->)
    end. auto. }
  destruct Hu as (Hu1 & Hu2 & Hu3).
  split; [rewrite Hl; world u; exact Hu1|].
  split; [rewrite Hl; world u; exact Hu2|].
  rewrite runThens_media by (rewrite Hu2; eauto).
  rewrite Hu3, queuedMedia_app. reflexivity.
Qed.

(** The first frame is captured while the promise is pending, the user
    stops, the promise resolves: the frame is sent. *)
Lemma X20_frame_in_flight_at_stop_witness :
  let w := run initial [ClickMic; GetUserMediaResolved 0; OnOpen 0] in
  sessionPromises w !! 0%nat
  = Some {| initialText := None; opened := true; settled := false; thens := [] |} /\
  effects (run w [OnAudioProcess 0 "AAAA"; ClickMic; SessionResolved 0])
  = [Connect 0; TrackStop 0; SendMedia 0 "AAAA"] /\
  sentMedia (effects (step (stopSession (step w (OnAudioProcess 0 "AAAA")))
                           (SessionResolved 0)))
  = [(0%nat, "AAAA")].
Proof.
  cbn zeta. split; [reflexivity|]. split; [reflexivity|].
  destruct (X20_frame_in_flight_at_stop
              (run initial [ClickMic; GetUserMediaResolved 0; OnOpen 0]) 0
              {| initialText := None; opened := true; settled := false; thens := [] |}
              "AAAA" eq_refl eq_refl eq_refl) as (_ & _ & _ & _ & _ & H).
  rewrite H. reflexivity.
Defined.
